(** * Nitro build policy layer: handler aggregation, chunk naming, strict externals

    Shallow embedding of
    - the [handlers] rollup plugin (the generator of the virtual module
      [#internal/nitro/virtual/server-handlers]), and
    - [getChunkName] and the [no-externals] [resolveId] hook of
      [src/rollup/config.ts],
    together with the properties the specification states about them.

    JavaScript strings are modelled as [string], i.e. sequences of 8-bit code
    units (the Latin-1 range of the UTF-16 code units of the source language).
    [undefined] is [None]. *)

From Stdlib Require Import String Ascii List Bool Arith Lia.
Import ListNotations.
Open Scope list_scope.
Open Scope string_scope.

(* ================================================================== *)
(** * JavaScript primitives the sources rely on *)
(* ================================================================== *)

Module JS.

(** The line feed, written [\n] in the sources. *)
Definition LF : ascii := "010"%char.
Definition nl : string := String LF "".

(** [s.startsWith(p)] *)
Definition startsWith (s p : string) : bool := String.prefix p s.

(** [s.endsWith(p)] *)
Fixpoint endsWith (s p : string) : bool :=
  (s =? p) ||
  match s with
  | "" => false
  | String _ s' => endsWith s' p
  end.

(** [s.slice(0, n)] for a non-negative [n] *)
Definition slice0 (n : nat) (s : string) : string := substring 0 n s.

(** [arr.join(sep)] on an array of strings *)
Definition join (sep : string) (l : list string) : string := String.concat sep l.

(** Truthiness of an optional string: [undefined] and [''] are falsy. *)
Definition truthy (o : option string) : bool :=
  match o with
  | Some s => negb (s =? "")
  | None => false
  end.

(** [!!b] on an optional boolean. *)
Definition toBool (o : option bool) : bool :=
  match o with
  | Some b => b
  | None => false
  end.

(** [o || d] on an optional string. *)
Definition orElse (o : option string) (d : string) : string :=
  match o with
  | Some s => if s =? "" then d else s
  | None => d
  end.

(** Interpolation of a boolean in a template literal. *)
Definition showBool (b : bool) : string := if b then "true" else "false".

(** White space and line terminators removed by [trim] (code units below 256). *)
Definition isWhiteSpace (c : ascii) : bool :=
  let n := nat_of_ascii c in
  ((n =? 9) || (n =? 10) || (n =? 11) || (n =? 12) || (n =? 13) || (n =? 32) || (n =? 160))%nat.

Fixpoint trimStart (s : string) : string :=
  match s with
  | "" => ""
  | String c s' => if isWhiteSpace c then trimStart s' else s
  end.

Fixpoint trimEnd (s : string) : string :=
  match s with
  | "" => ""
  | String c s' =>
      let t := trimEnd s' in
      if isWhiteSpace c && (t =? "") then "" else String c t
  end.

(** [s.trim()] *)
Definition trim (s : string) : string := trimStart (trimEnd s).

(** ** [JSON.stringify] on strings *)

Definition hexDigit (n : nat) : ascii :=
  if (n <? 10)%nat then ascii_of_nat (48 + n) else ascii_of_nat (87 + n).

Definition dquote : string := String (ascii_of_nat 34) "".
Definition backslash : string := String (ascii_of_nat 92) "".

(** The escape of one code unit inside a JSON string. *)
Definition jsonEscape (c : ascii) : string :=
  let n := nat_of_ascii c in
  if (n =? 34)%nat then backslash ++ dquote
  else if (n =? 92)%nat then backslash ++ backslash
  else if (n =? 8)%nat then backslash ++ "b"
  else if (n =? 12)%nat then backslash ++ "f"
  else if (n =? 10)%nat then backslash ++ "n"
  else if (n =? 13)%nat then backslash ++ "r"
  else if (n =? 9)%nat then backslash ++ "t"
  else if (n <? 32)%nat then
    backslash ++ "u00" ++ String (hexDigit (n / 16)) (String (hexDigit (n mod 16)) "")
  else String c "".

Fixpoint jsonEscapeAll (s : string) : string :=
  match s with
  | "" => ""
  | String c s' => jsonEscape c ++ jsonEscapeAll s'
  end.

(** [JSON.stringify(s)] for a string [s]. *)
Definition quoteJSON (s : string) : string := dquote ++ jsonEscapeAll s ++ dquote.

(** [`${JSON.stringify(o)}`] for an optional string: [JSON.stringify(undefined)]
    is [undefined], which a template literal prints as the word. *)
Definition stringifyOpt (o : option string) : string :=
  match o with
  | Some s => quoteJSON s
  | None => "undefined"
  end.

(** ** Regular expressions

    A small matcher by derivatives; the regular expressions of the sources
    are written as values of [regex]. *)

Inductive regex : Type :=
| Void
| Eps
| Cls (p : ascii -> bool)
| Cat (r1 r2 : regex)
| Alt (r1 r2 : regex)
| Star (r : regex).

Fixpoint nullable (r : regex) : bool :=
  match r with
  | Void => false
  | Eps => true
  | Cls _ => false
  | Cat r1 r2 => nullable r1 && nullable r2
  | Alt r1 r2 => nullable r1 || nullable r2
  | Star _ => true
  end.

Fixpoint deriv (c : ascii) (r : regex) : regex :=
  match r with
  | Void => Void
  | Eps => Void
  | Cls p => if p c then Eps else Void
  | Cat r1 r2 =>
      if nullable r1
      then Alt (Cat (deriv c r1) r2) (deriv c r2)
      else Cat (deriv c r1) r2
  | Alt r1 r2 => Alt (deriv c r1) (deriv c r2)
  | Star r1 => Cat (deriv c r1) (Star r1)
  end.

(** [matches r s]: the whole of [s] is a word of [r]. *)
Fixpoint matches (r : regex) (s : string) : bool :=
  match s with
  | "" => nullable r
  | String c s' => matches (deriv c r) s'
  end.

(** A literal word. *)
Fixpoint Lit (s : string) : regex :=
  match s with
  | "" => Eps
  | String c s' => Cat (Cls (Ascii.eqb c)) (Lit s')
  end.

(** [r+] *)
Definition Plus (r : regex) : regex := Cat r (Star r).

(** [\w] *)
Definition isWord (c : ascii) : bool :=
  let n := nat_of_ascii c in
  (((48 <=? n) && (n <=? 57)) || ((65 <=? n) && (n <=? 90)) ||
   ((97 <=? n) && (n <=? 122)) || (n =? 95))%nat.

(** The language of a regular expression. *)
Inductive lang : regex -> string -> Prop :=
| lang_eps : lang Eps ""
| lang_cls p c : p c = true -> lang (Cls p) (String c "")
| lang_cat r1 r2 s1 s2 : lang r1 s1 -> lang r2 s2 -> lang (Cat r1 r2) (s1 ++ s2)
| lang_alt_l r1 r2 s : lang r1 s -> lang (Alt r1 r2) s
| lang_alt_r r1 r2 s : lang r2 s -> lang (Alt r1 r2) s
| lang_star_nil r : lang (Star r) ""
| lang_star_cons r s1 s2 : lang r s1 -> lang (Star r) s2 -> lang (Star r) (s1 ++ s2).

End JS.

(* ================================================================== *)
(** * The types shared by the plugin and the rollup configuration *)
(* ================================================================== *)

Module Types.

(** [NitroEventHandler]: every field but [handler] is optional. *)
Record NitroEventHandler : Type := mkHandler {
  route : option string;
  handler : string;
  lazy : option bool;
  middleware : option bool;
  method : option string
}.

(** An entry of [nitro.options.tasks]. *)
Record NitroTask : Type := mkTask {
  task_handler : string;
  task_description : string
}.

(** The fields of [nitro.options] the two sources read. [serveStatic] and
    [node] are only tested for truthiness; [tasks] keeps the order of
    [Object.entries]. *)
Record NitroOptions : Type := mkOptions {
  handlers : list NitroEventHandler;
  serveStatic : bool;
  renderer : option string;
  buildDir : string;
  tasks : list (string * NitroTask);
  node : bool;
  dev : bool;
  nodeModulesDirs : list string
}.

Record Nitro : Type := mkNitro {
  options : NitroOptions;
  scannedHandlers : list NitroEventHandler
}.

End Types.

(* ================================================================== *)
(** * The [handlers] plugin: the server-handlers virtual module *)
(* ================================================================== *)

Module Handlers.
Import JS Types.

(** [unique]: [Array.from(new Set(arr))], first occurrences in order. *)
Fixpoint unique (arr : list string) : list string :=
  match arr with
  | [] => []
  | x :: xs => x :: filter (fun y => negb (y =? x)) (unique xs)
  end.

(** The method tokens of the suffix convention, in the order of the
    alternation. *)
Definition methodTokens : list string :=
  ["get"; "head"; "patch"; "post"; "put"; "delete"; "connect"; "options"; "trace"].

(** [(\.\w+)*] *)
Definition extensions : regex :=
  Star (Cat (Lit ".") (Plus (Cls isWord))).

(** One attempt of
    [/\.(get|head|patch|post|put|delete|connect|options|trace)(\.\w+)*$/]
    at the start of [s]: the first alternative, in order, with which the rest
    of the input matches up to its end. *)
Definition matchMethodHere (s : string) : option string :=
  match s with
  | String "." rest =>
      find (fun m => matches (Cat (Lit m) extensions) rest) methodTokens
  | _ => None
  end.

(** [handler.match(...)]: the leftmost position at which the expression
    matches; the result is its first capture group. *)
Fixpoint matchMethod (s : string) : option string :=
  match matchMethodHere s with
  | Some m => Some m
  | None =>
      match s with
      | "" => None
      | String _ s' => matchMethod s'
      end
  end.

(** The callback mapped over [nitro.options.handlers]. *)
Definition inferMethod (h : NitroEventHandler) : NitroEventHandler :=
  if truthy (method h) then h
  else {| route := route h; handler := handler h; lazy := lazy h;
          middleware := middleware h; method := matchMethod (handler h) |}.

Definition staticHandler : NitroEventHandler :=
  {| route := None; handler := "#internal/nitro/static"; lazy := None;
     middleware := Some true; method := None |}.

Definition rendererHandler (r : string) : NitroEventHandler :=
  {| route := Some "/**"; handler := r; lazy := Some true;
     middleware := None; method := None |}.

(** The [handlers] array of one invocation: the spread of the two sources,
    then [unshift] and [push]. *)
Definition collectHandlers (nitro : Nitro) : list NitroEventHandler :=
  let hs := (scannedHandlers nitro ++ map inferMethod (handlers (options nitro)))%list in
  let hs := if serveStatic (options nitro) then staticHandler :: hs else hs in
  match renderer (options nitro) with
  | Some r => if r =? "" then hs else (hs ++ [rendererHandler r])%list
  | None => hs
  end.

Definition isLazy (h : NitroEventHandler) : bool := toBool (lazy h).

Definition imports (hs : list NitroEventHandler) : list string :=
  unique (map handler (filter (fun h => negb (isLazy h)) hs)).

Definition lazyImports (hs : list NitroEventHandler) : list string :=
  unique (map handler (filter isLazy hs)).

Section Generator.

(** [hash] of the [ohash] package. *)
Variable hash : string -> string.

Definition getImportId (p : string) (lazy : bool) : string :=
  (if lazy then "_lazy_" else "_") ++ slice0 6 (hash p).

Definition importLine (handler : string) : string :=
  "import " ++ getImportId handler false ++ " from '" ++ handler ++ "';".

Definition lazyImportLine (handler : string) : string :=
  "const " ++ getImportId handler true ++ " = () => import('" ++ handler ++ "');".

Definition handlerRow (h : NitroEventHandler) : string :=
  "  { route: '" ++ orElse (route h) "" ++
  "', handler: " ++ getImportId (handler h) (isLazy h) ++
  ", lazy: " ++ showBool (toBool (lazy h)) ++
  ", middleware: " ++ showBool (toBool (middleware h)) ++
  ", method: " ++ stringifyOpt (method h) ++ " }".

(** The rows of the array literal, before they are joined. *)
Definition handlerRows (hs : list NitroEventHandler) : list string :=
  map handlerRow hs.

(** The template literal of the generator, trimmed. *)
Definition generateCode (hs : list NitroEventHandler) : string :=
  trim (nl ++
        join nl (map importLine (imports hs)) ++ nl ++
        nl ++
        join nl (map lazyImportLine (lazyImports hs)) ++ nl ++
        nl ++
        "export const handlers = [" ++ nl ++
        join ("," ++ nl) (handlerRows hs) ++ nl ++
        "];" ++ nl ++
        "  ").

(** ** The debug dump

    [dumpHandler] renders through the [table] package and relative to
    [process.cwd()]; the generator only compares and prints its result. *)
Variable dumpHandler : list NitroEventHandler -> string.

(** What one invocation yields: the module text, what was written with
    [console.log], and the new value of the closure variable [lastDump]. *)
Record Run : Type := mkRun {
  code : string;
  logged : list string;
  nextDump : string
}.

Definition generate (isDebug : bool) (nitro : Nitro) (lastDump : string) : Run :=
  let hs := collectHandlers nitro in
  let '(lastDump, logged) :=
    if isDebug then
      let dumped := dumpHandler hs in
      if negb (dumped =? lastDump) then
        (dumped, if negb (length hs =? 0)%nat then [dumped] else [])
      else (lastDump, [])
    else (lastDump, []) in
  {| code := generateCode hs; logged := logged; nextDump := lastDump |}.

(** The closure starts with [lastDump = '']; successive invocations thread it. *)
Fixpoint generateAll (isDebug : bool) (builds : list Nitro) (lastDump : string)
  : list Run :=
  match builds with
  | [] => []
  | nitro :: rest =>
      let r := generate isDebug nitro lastDump in
      r :: generateAll isDebug rest (nextDump r)
  end.

End Generator.

End Handlers.

(* ================================================================== *)
(** * [src/rollup/config.ts]: chunk names and the [no-externals] plugin *)
(* ================================================================== *)

Module RollupConfig.
Import JS Types.

(** What [getRollupConfig] takes from outside the repository: the constant
    [runtimeDir] of [nitropack/runtime/meta], [join] and [resolve] of [pathe],
    [builtinModules] of [node:module], [isAbsolute] of [node:path] and
    [pathToFileURL] of [node:url]. *)
Record Host : Type := mkHost {
  runtimeDir : string;
  join : string -> string -> string;
  resolve : string -> string -> string;
  builtinModules : list string;
  isAbsolute : string -> bool;
  pathToFileURL : string -> string
}.

(** The [\0] prefix of virtual module ids. *)
Definition NUL : string := String "000"%char "".

Section ChunkNames.

Variable host : Host.
Variable nitro : Nitro.

Definition buildServerDir : string :=
  join host (buildDir (options nitro)) "dist/server".

Definition presetsDir : string :=
  resolve host (runtimeDir host) "../presets".

Definition chunkNamePrefixes : list (string * string) :=
  [ (buildDir (options nitro), "build");
    (buildServerDir, "app");
    (runtimeDir host, "nitro");
    (presetsDir, "nitro");
    ((NUL ++ "raw:")%string, "raw");
    ((NUL ++ "nitro-wasm:")%string, "wasm");
    (NUL, "virtual") ].

(** The [for ... of] loop over the prefix table, returning at the first hit. *)
Fixpoint knownPrefix (id : string) (table : list (string * string)) : option string :=
  match table with
  | [] => None
  | (dir, name) :: rest =>
      if startsWith id dir then Some ("chunks/" ++ name ++ "/[name].mjs")%string
      else knownPrefix id rest
  end.

Definition isSlash (c : ascii) : bool := Ascii.eqb c "/".

(** [s.replace(/:([^/]+)/g, "_$1")]. [inMatch] tells that the scan is inside
    the [[^/]+] of a match, which runs up to the next [/] or the end. *)
Fixpoint replaceParams (inMatch : bool) (s : string) : string :=
  match s with
  | "" => ""
  | String c s' =>
      if isSlash c then String c (replaceParams false s')
      else if inMatch then String c (replaceParams true s')
      else if Ascii.eqb c ":" &&
              match s' with
              | "" => false
              | String d _ => negb (isSlash d)
              end
      then String "_" (replaceParams true s')
      else String c (replaceParams false s')
  end.

Fixpoint noSlash (s : string) : bool :=
  match s with
  | "" => true
  | String c s' => negb (isSlash c) && noSlash s'
  end.

(** [s.replace(/\/[^/]+$/g, "")]: the match, if any, is the last [/] with the
    non-empty rest of the input. *)
Fixpoint stripLastSegment (s : string) : string :=
  match s with
  | "" => ""
  | String c s' =>
      if isSlash c && negb (s' =? "") && noSlash s' then ""
      else String c (stripLastSegment s')
  end.

(** The directory of a route inside [chunks/routes]. *)
Definition routePath (route : string) : string :=
  orElse (Some (stripLastSegment (replaceParams false route))) "/".

Definition ownsModule (id : string) (h : NitroEventHandler) : bool :=
  startsWith id (handler h).

(** [a.find(...) || b.find(...)] *)
Definition routeHandler (id : string) : option NitroEventHandler :=
  match find (ownsModule id) (handlers (options nitro)) with
  | Some h => Some h
  | None => find (ownsModule id) (scannedHandlers nitro)
  end.

Definition taskHandler (id : string) : option (string * NitroTask) :=
  find (fun e => task_handler (snd e) =? id) (tasks (options nitro)).

Definition getChunkName (id : string) : string :=
  (* Known path prefixes *)
  match knownPrefix id chunkNamePrefixes with
  | Some name => name
  | None =>
      (* Route handlers *)
      let byRoute :=
        match routeHandler id with
        | Some h => if truthy (route h) then route h else None
        | None => None
        end in
      match byRoute with
      | Some r => "chunks/routes" ++ routePath r ++ "/[name].mjs"
      | None =>
          (* Task handlers *)
          match taskHandler id with
          | Some _ => "chunks/tasks/[name].mjs"
          | None =>
              (* Unknown path *)
              "chunks/_/[name].mjs"
          end
      end
  end.

End ChunkNames.

(** ** The [no-externals] plugin *)

(** What a resolver answers: [external] is only tested for truthiness. *)
Record ResolvedId : Type := mkResolved {
  id : string;
  external : bool
}.

(** The options handed to [resolveModulePath]. *)
Record ResolveOptions : Type := mkResolveOptions {
  try : bool;
  from : list string;
  suffixes : list string;
  extensions : list string;
  conditions : list string
}.

(** The resolvers the hook calls: [this.resolve] of the plugin context (the
    [resolveOpts] argument is handed over as it came) and [resolveModulePath]
    of [exsolve]. *)
Record Resolvers : Type := mkResolvers {
  this_resolve : string -> option string -> option ResolvedId;
  resolveModulePath : string -> ResolveOptions -> option string
}.

Inductive Call : Type :=
| CallResolve (id : string) (importer : option string)
| CallResolveModulePath (id : string) (opts : ResolveOptions).

(** How the hook ends: a value ([undefined] is [None]) or an [Error]. *)
Inductive Outcome : Type :=
| Return (r : option ResolvedId)
| Throw (message : string).

(** Computations of the hook: they record the resolver calls they make and
    either go on with a value or leave the function. *)
Inductive Step (A : Type) : Type :=
| Continue (a : A)
| Exit (o : Outcome).
Arguments Continue {A} a.
Arguments Exit {A} o.

Definition M (A : Type) : Type := list Call -> list Call * Step A.

Definition ret {A} (a : A) : M A := fun t => (t, Continue a).

Definition bind {A B} (c : M A) (k : A -> M B) : M B :=
  fun t =>
    match c t with
    | (t', Continue a) => k a t'
    | (t', Exit o) => (t', Exit o)
    end.

Definition leave {A} (o : Outcome) : M A := fun t => (t, Exit o).

Definition when (b : bool) (c : M unit) : M unit := if b then c else ret tt.

Notation "x <- c ;; k" := (bind c (fun x => k))
  (at level 61, c at next level, right associativity).
Notation "c ;;; k" := (bind c (fun _ => k))
  (at level 61, right associativity).

Section NoExternals.

Variable host : Host.
Variable nitro : Nitro.
Variable resolvers : Resolvers.

Definition callResolve (i : string) (importer : option string) : M (option ResolvedId) :=
  fun t => ((t ++ [CallResolve i importer])%list,
            Continue (this_resolve resolvers i importer)).

Definition callResolveModulePath (i : string) (opts : ResolveOptions) : M (option string) :=
  fun t => ((t ++ [CallResolveModulePath i opts])%list,
            Continue (resolveModulePath resolvers i opts)).

Definition isNone {A} (o : option A) : bool :=
  match o with
  | Some _ => false
  | None => true
  end.

Definition isExternal (o : option ResolvedId) : bool :=
  match o with
  | Some r => external r
  | None => false
  end.

Definition isBuiltin (i : string) : bool :=
  startsWith i "node:" || existsb (String.eqb i) (builtinModules host).

Definition fallbackOptions (importer : option string) : ResolveOptions :=
  {| try := true;
     from :=
       match importer with
       | Some imp =>
           if negb (imp =? "") && isAbsolute host imp
           then pathToFileURL host imp :: nodeModulesDirs (options nitro)
           else nodeModulesDirs (options nitro)
       | None => nodeModulesDirs (options nitro)
       end;
     suffixes := [""; "/index"];
     extensions := [".mjs"; ".cjs"; ".js"; ".mts"; ".cts"; ".ts"; ".json"];
     conditions :=
       ["default"; if dev (options nitro) then "development" else "production";
        "node"; "import"; "require"] |}.

Definition cannotResolve (i : string) (importer : option string) : string :=
  "Cannot resolve " ++ quoteJSON i ++ " from " ++ stringifyOpt importer ++
  " and externals are not allowed!".

Definition resolveIdBody (i : string) (importer : option string) : M unit :=
  when (node (options nitro) && isBuiltin i)
    (leave (Return (Some {| id := i; external := true |}))) ;;;
  resolved <- callResolve i importer ;;
  when (isNone resolved)
    (_resolved <- callResolveModulePath i (fallbackOptions importer) ;;
     match _resolved with
     | Some r =>
         when (negb (r =? ""))
           (leave (Return (Some {| id := r; external := false |})))
     | None => ret tt
     end) ;;;
  when (isNone resolved || (isExternal resolved && negb (endsWith i ".wasm")))
    (leave (Throw (cannotResolve i importer))).

(** The hook: the calls it made, in order, and how it ended. Falling off the
    end of the function returns [undefined]. *)
Definition resolveId (i : string) (importer : option string) : list Call * Outcome :=
  match resolveIdBody i importer [] with
  | (t, Continue _) => (t, Return None)
  | (t, Exit o) => (t, o)
  end.

End NoExternals.

End RollupConfig.

(* ================================================================== *)
(** * Further string primitives *)
(* ================================================================== *)

Module JSStrings.
Import JS.

(** [s.slice(n)] for a non-negative [n] *)
Fixpoint drop (n : nat) (s : string) : string :=
  match n, s with
  | 0, _ => s
  | S _, "" => ""
  | S k, String _ s' => drop k s'
  end.

(** [s.includes(sub)] *)
Fixpoint includes (s sub : string) : bool :=
  startsWith s sub ||
  match s with
  | "" => false
  | String _ s' => includes s' sub
  end.

(** The text before the first occurrence of [sep] and the text after it. *)
Fixpoint cut (sep s : string) : option (string * string) :=
  if startsWith s sep then Some ("", drop (String.length sep) s)
  else
    match s with
    | "" => None
    | String c s' =>
        match cut sep s' with
        | Some (before, after) => Some (String c before, after)
        | None => None
        end
    end.

(** [s.split(sep)] for a non-empty [sep]: the occurrences are taken from
    left to right, each search starting behind the previous occurrence.
    A text of [fuel] characters has at most [fuel] occurrences. *)
Fixpoint splitFuel (fuel : nat) (sep s : string) : list string :=
  match fuel with
  | 0 => [s]
  | S fuel' =>
      match cut sep s with
      | Some (before, after) => before :: splitFuel fuel' sep after
      | None => [s]
      end
  end.

Definition split (sep s : string) : list string :=
  splitFuel (String.length s) sep s.

(** The value of [arr.pop()]. *)
Fixpoint pop (arr : list string) : option string :=
  match arr with
  | [] => None
  | [x] => Some x
  | _ :: rest => pop rest
  end.

(** [arr.at(-1)] *)
Definition atLast (arr : list string) : option string :=
  nth_error arr (length arr - 1).

(** [s.replace(pattern, replacement)] for a non-empty string [pattern] and a
    [replacement] without [$]: the first occurrence only. *)
Definition replaceFirst (pattern replacement s : string) : string :=
  match cut pattern s with
  | Some (before, after) => before ++ replacement ++ after
  | None => s
  end.

(** [s.replace(/-/g, "")] *)
Fixpoint removeDashes (s : string) : string :=
  match s with
  | "" => ""
  | String c s' =>
      if Ascii.eqb c "-" then removeDashes s' else String c (removeDashes s')
  end.

End JSStrings.

(* ================================================================== *)
(** * [src/rollup/config.ts]: output options and generated modules *)
(* ================================================================== *)

Module RollupOutput.
Import JS JSStrings Types RollupConfig.

Section Output.

Variable host : Host.
Variable nitro : Nitro.

(** [normalize] of [pathe]. *)
Variable normalize : string -> string.

(** [nitro.options.moduleSideEffects] *)
Variable options_moduleSideEffects : list string.

Definition getChunkGroup (id : string) : option string :=
  if startsWith id (runtimeDir host) || startsWith id (presetsDir host)
  then Some "nitro"
  else None.

(** [output.chunkFileNames], on the [moduleIds] of the chunk. *)
Definition chunkFileNames (moduleIds : list string) : string :=
  let lastModule := normalize (orElse (atLast moduleIds) "") in
  getChunkName host nitro lastModule.

(** [treeshake.moduleSideEffects] *)
Definition moduleSideEffects (id : string) : bool :=
  let normalizedId := normalize id in
  match pop (split "node_modules/" normalizedId) with
  | None => false
  | Some idWithoutNodeModules =>
      if idWithoutNodeModules =? "" then false
      else if startsWith normalizedId (runtimeDir host) ||
              startsWith idWithoutNodeModules (runtimeDir host)
      then true
      else existsb
             (fun m => startsWith normalizedId m || startsWith idWithoutNodeModules m)
             options_moduleSideEffects
  end.

End Output.

(** The text of [#nitro-internal-pollyfills], from [env.polyfill]. *)
Definition polyfillsModule (polyfill : list string) : string :=
  orElse (Some (JS.join nl (map (fun p => "import '" ++ p ++ "';") polyfill)))
    "/* No polyfills */".

Section Plugins.

(** [hash] of the [ohash] package. *)
Variable hash : string -> string.

Definition pluginId (plugin : string) : string :=
  "_" ++ removeDashes (hash plugin).

Definition pluginImport (plugin : string) : string :=
  "import " ++ pluginId plugin ++ " from '" ++ plugin ++ "';".

(** The template literal of [#nitro-internal-virtual/plugins], from
    [nitro.options.plugins]. *)
Definition pluginsModule (plugins : list string) : string :=
  let nitroPlugins := Handlers.unique plugins in
  nl ++
  JS.join nl (map pluginImport nitroPlugins) ++ nl ++
  nl ++
  "export const plugins = [" ++ nl ++
  "  " ++ JS.join ("," ++ nl) (map pluginId nitroPlugins) ++ nl ++
  "]" ++ nl ++
  "    ".

End Plugins.

(** The [filename] handed to the visualizer, from [nitro.options.analyze.filename]. *)
Definition analyzeFilename (filename : option string) : string :=
  replaceFirst "{name}" "nitro" (orElse filename "stats.html").

End RollupOutput.

(* ================================================================== *)
(** * [src/rollup/config.ts]: the values of the replace plugin *)
(* ================================================================== *)

Module ReplaceValues.
Import JS Types.

(** The further fields of [nitro.options] read for the replacements:
    [preset], [baseURL], the three experimental flags, the text of
    [JSON.stringify(runtimeConfig, null, 2)] and the entries of [replace]
    in their order. *)
Record ReplaceOptions : Type := mkReplaceOptions {
  preset : string;
  baseURL : string;
  experimental_asyncContext : option bool;
  experimental_websocket : option bool;
  experimental_tasks : option bool;
  runtimeConfigText : string;
  replace : list (string * option string)
}.

(** The values that occur in the two tables of flags. *)
Inductive Value : Type :=
| VBool (b : bool)
| VString (s : string)
| VUndefined.

Definition ofFlag (o : option bool) : Value :=
  match o with
  | Some b => VBool b
  | None => VUndefined
  end.

(** [JSON.stringify(val)]; [undefined] for [undefined]. *)
Definition stringify (v : Value) : option string :=
  match v with
  | VBool b => Some (showBool b)
  | VString s => Some (quoteJSON s)
  | VUndefined => None
  end.

Section Values.

Variable nitro : Nitro.
Variable more : ReplaceOptions.

Definition isPrerender : bool := preset more =? "nitro-prerender".

Definition NODE_ENV : string :=
  let NODE_ENV := if dev (options nitro) then "development" else "production" in
  if isPrerender then "prerender" else NODE_ENV.

Definition buildEnvVars : list (string * Value) :=
  [ ("NODE_ENV", VString NODE_ENV);
    ("prerender", VBool isPrerender);
    ("server", VBool true);
    ("client", VBool false);
    ("dev", VString (showBool (dev (options nitro))));
    ("DEBUG", VBool (dev (options nitro))) ].

Definition staticFlags : list (string * Value) :=
  [ ("dev", VBool (dev (options nitro)));
    ("preset", VString (preset more));
    ("prerender", VBool isPrerender);
    ("server", VBool true);
    ("client", VBool false);
    ("nitro", VBool true);
    ("baseURL", VString (baseURL more));
    ("versions.nitro", VString "");
    ("versions?.nitro", VString "");
    ("_asyncContext", ofFlag (experimental_asyncContext more));
    ("_websocket", ofFlag (experimental_websocket more));
    ("_tasks", ofFlag (experimental_tasks more)) ].

Definition TAB : string := String (ascii_of_nat 9) "".

(** [Object.entries(table).map(([key, val]) => [prefix + key, JSON.stringify(val)])] *)
Definition stringified (prefix : string) (table : list (string * Value))
  : list (string * option string) :=
  map (fun e => (prefix ++ fst e, stringify (snd e))) table.

(** The entries of the [values] object before [...nitro.options.replace],
    in the order they are written. *)
Definition ownValues : list (string * option string) :=
  let importMeta :=
    map (fun d => ("import.meta" ++ d, Some ("globalThis._importMeta_" ++ d)))
      ["."; ";"; ")"; "["; "]"; "}"; " "] in
  let globals :=
    map (fun d => (d ++ "global.", Some (d ++ "globalThis.")))
      [";"; "("; "{"; "}"; " "; TAB; nl] in
  let typeofWindow : string := dquote ++ "undefined" ++ dquote in
  ([ ("typeof window", Some typeofWindow);
     ("_import_meta_url_", Some "import.meta.url");
     ("globalThis.process.", Some "process.");
     ("process.env.RUNTIME_CONFIG", Some (runtimeConfigText more)) ] ++
   importMeta ++
   globals ++
   stringified "process.env." buildEnvVars ++
   stringified "import.meta.env." buildEnvVars ++
   stringified "process." staticFlags ++
   stringified "import.meta." staticFlags)%list.

(** The entries of [values]: an entry written later replaces an earlier one
    of the same key. *)
Definition values : list (string * option string) :=
  (ownValues ++ replace more)%list.

(** The value of a key in an object built from entries: the last one. *)
Definition valueOf (key : string) (entries : list (string * option string))
  : option (option string) :=
  option_map snd (find (fun e => fst e =? key) (rev entries)).

End Values.

End ReplaceValues.

(* ================================================================== *)
(** * Reading a row of the generated array back *)
(* ================================================================== *)

Module RowReader.
Import JS.

(** Characters of a binding name: letters, digits, [_] and [$]. *)
Definition isIdentPart (c : ascii) : bool := isWord c || Ascii.eqb c "$".

Definition isDigit (c : ascii) : bool :=
  let n := nat_of_ascii c in ((48 <=? n) && (n <=? 57))%nat.

Fixpoint allIdentPart (s : string) : bool :=
  match s with
  | "" => true
  | String c s' => isIdentPart c && allIdentPart s'
  end.

(** A binding name: not empty, made of identifier characters, the first one
    not a digit. *)
Definition validBinding (s : string) : bool :=
  match s with
  | "" => false
  | String c s' => isIdentPart c && negb (isDigit c) && allIdentPart s'
  end.

(** The fields of one row, as the runtime reads them. *)
Record Row : Type := mkRow {
  row_route : string;
  row_handler : string;
  row_lazy : bool;
  row_middleware : bool;
  row_method : option string
}.

(** [expect lit s]: [s] without its prefix [lit]. *)
Fixpoint expect (lit s : string) : option string :=
  match lit with
  | "" => Some s
  | String c lit' =>
      match s with
      | "" => None
      | String d s' => if Ascii.eqb c d then expect lit' s' else None
      end
  end.

Definition hexValue (c : ascii) : option nat :=
  let n := nat_of_ascii c in
  if ((48 <=? n) && (n <=? 57))%nat then Some (n - 48)
  else if ((97 <=? n) && (n <=? 102))%nat then Some (n - 87)
  else if ((65 <=? n) && (n <=? 70))%nat then Some (n - 55)
  else None.

Definition isLineTerminator (c : ascii) : bool :=
  let n := nat_of_ascii c in ((n =? 10) || (n =? 13))%nat.

(** The character a single-character escape stands for. *)
Definition unescape (e : ascii) : ascii :=
  if Ascii.eqb e "b" then ascii_of_nat 8
  else if Ascii.eqb e "f" then ascii_of_nat 12
  else if Ascii.eqb e "n" then ascii_of_nat 10
  else if Ascii.eqb e "r" then ascii_of_nat 13
  else if Ascii.eqb e "t" then ascii_of_nat 9
  else if Ascii.eqb e "v" then ascii_of_nat 11
  else e.

Definition push (c : ascii) (r : option (string * string)) : option (string * string) :=
  match r with
  | Some (str, rest) => Some (String c str, rest)
  | None => None
  end.

(** A code unit from the value of its hexadecimal digits; values beyond the
    8-bit code units of the model are not read. *)
Definition codeUnit (digits : list (option nat)) : option ascii :=
  match fold_left (fun acc d =>
                     match acc, d with
                     | Some a, Some v => Some (16 * a + v)
                     | _, _ => None
                     end) digits (Some 0) with
  | Some v => if (v <? 256)%nat then Some (ascii_of_nat v) else None
  | None => None
  end.

(** The body of a string literal after its opening quote, up to the closing
    quote [q]: the value with its escapes decoded, and what follows the
    literal. Module code is strict: octal escapes are errors. *)
Fixpoint readString (q : ascii) (s : string) : option (string * string) :=
  match s with
  | "" => None
  | String c s' =>
      if Ascii.eqb c q then Some ("", s')
      else if isLineTerminator c then None
      else if Ascii.eqb c "\" then
        match s' with
        | "" => None
        | String e s'' =>
            if Ascii.eqb e "u" then
              match s'' with
              | String h1 (String h2 (String h3 (String h4 rest))) =>
                  match codeUnit [hexValue h1; hexValue h2; hexValue h3; hexValue h4] with
                  | Some v => push v (readString q rest)
                  | None => None
                  end
              | _ => None
              end
            else if Ascii.eqb e "x" then
              match s'' with
              | String h1 (String h2 rest) =>
                  match codeUnit [hexValue h1; hexValue h2] with
                  | Some v => push v (readString q rest)
                  | None => None
                  end
              | _ => None
              end
            else if isLineTerminator e then readString q s''
            else if isDigit e then
              if Ascii.eqb e "0" &&
                 match s'' with
                 | "" => true
                 | String d _ => negb (isDigit d)
                 end
              then push (ascii_of_nat 0) (readString q s'')
              else None
            else push (unescape e) (readString q s'')
        end
      else push c (readString q s')
  end.

(** The longest run of identifier characters. *)
Fixpoint readIdentPart (s : string) : string * string :=
  match s with
  | "" => ("", "")
  | String c s' =>
      if isIdentPart c
      then let (a, rest) := readIdentPart s' in (String c a, rest)
      else ("", s)
  end.

Definition readIdent (s : string) : option (string * string) :=
  let (a, rest) := readIdentPart s in
  if validBinding a then Some (a, rest) else None.

Definition readBool (s : string) : option (bool * string) :=
  match expect "true" s with
  | Some rest => Some (true, rest)
  | None =>
      match expect "false" s with
      | Some rest => Some (false, rest)
      | None => None
      end
  end.

(** [undefined] or a double-quoted string literal. *)
Definition readMethod (s : string) : option (option string * string) :=
  match expect "undefined" s with
  | Some rest => Some (None, rest)
  | None =>
      match expect dquote s with
      | Some body =>
          match readString (ascii_of_nat 34) body with
          | Some (m, rest) => Some (Some m, rest)
          | None => None
          end
      | None => None
      end
  end.

Notation "'let?' x := c 'in' k" :=
  (match c with
   | Some x => k
   | None => None
   end) (at level 10, x pattern, c at level 100, k at level 200).

(** One row of the array literal, in the layout the generator prints, and
    what follows it. *)
Definition readRow (s : string) : option (Row * string) :=
  let? s := expect "  { route: '" s in
  let? (r, s) := readString "'" s in
  let? s := expect ", handler: " s in
  let? (h, s) := readIdent s in
  let? s := expect ", lazy: " s in
  let? (l, s) := readBool s in
  let? s := expect ", middleware: " s in
  let? (mw, s) := readBool s in
  let? s := expect ", method: " s in
  let? (m, s) := readMethod s in
  let? s := expect " }" s in
  Some ({| row_route := r; row_handler := h; row_lazy := l;
           row_middleware := mw; row_method := m |}, s).

(** A text that is one row and nothing else. *)
Definition parseRow (s : string) : option Row :=
  let? (row, rest) := readRow s in
  if rest =? "" then Some row else None.

(** Rows separated by a comma and a line feed, closed by a line feed and
    [];]. [fuel] bounds the number of rows. *)
Fixpoint readRows (fuel : nat) (s : string) : option (list Row) :=
  match fuel with
  | 0 => None
  | S fuel' =>
      let? (row, s) := readRow s in
      match expect ("," ++ nl) s with
      | Some s' =>
          let? rows := readRows fuel' s' in
          Some (row :: rows)
      | None =>
          let? s' := expect (nl ++ "];") s in
          if s' =? "" then Some [row] else None
      end
  end.

(** The array literal [export const handlers = [ ... ];]. *)
Definition parseArray (s : string) : option (list Row) :=
  let? s := expect ("export const handlers = [" ++ nl) s in
  match expect (nl ++ "];") s with
  | Some rest => if rest =? "" then Some [] else None
  | None => readRows (String.length s) s
  end.

End RowReader.

(* ================================================================== *)
(** * The notions the properties are stated with *)
(* ================================================================== *)

Module Notions.
Import JS Types Handlers RollupConfig RowReader.

(** ** Error messages *)

(** A text names a module id when it contains the id as [JSON.stringify]
    prints it. *)
Definition names (message : string) (quoted : string) : Prop :=
  exists before after, message = before ++ quoted ++ after.

(** ** Routes as lists of segments *)

(** A route [/s1/s2/...] built from its segments. *)
Fixpoint ofSegments (segs : list string) : string :=
  match segs with
  | [] => ""
  | s :: rest => "/" ++ s ++ ofSegments rest
  end.

Fixpoint noColon (s : string) : bool :=
  match s with
  | "" => true
  | String c s' => negb (Ascii.eqb c ":") && noColon s'
  end.

(** A segment is a non-empty run without [/]; it is a parameter [:x] or holds
    no colon at all. *)
Definition segment (s : string) : Prop :=
  s <> "" /\ noSlash s = true /\
  ((exists x, s = ":" ++ x) \/ noColon s = true).

(** [:x] becomes [_x]; other segments stay. *)
Definition rewriteSegment (s : string) : string :=
  match s with
  | String ":" (String c x) => String "_" (String c x)
  | _ => s
  end.

(** ** Chunk groups *)

(** The output path of a chunk group. *)
Definition label (group : string) : string := "chunks/" ++ group ++ "/[name].mjs".

(** Row [n] of a prefix table is the first one whose prefix [id] starts with. *)
Definition firstMatch (table : list (string * string)) (id : string)
  (n : nat) (name : string) : Prop :=
  exists dir,
    nth_error table n = Some (dir, name) /\ startsWith id dir = true /\
    forall k d g, k < n -> nth_error table k = Some (d, g) -> startsWith id d = false.

Definition noMatch (table : list (string * string)) (id : string) : Prop :=
  forall dir name, In (dir, name) table -> startsWith id dir = false.

(** ** Method suffixes *)

Fixpoint allWord (s : string) : bool :=
  match s with
  | "" => true
  | String c s' => isWord c && allWord s'
  end.

(** A run of extension segments [.w1.w2...], each [w] a non-empty word. *)
Inductive Extensions : string -> Prop :=
| ext_none : Extensions ""
| ext_more w rest :
    w <> "" -> allWord w = true -> Extensions rest ->
    Extensions ("." ++ w ++ rest).

(** At offset [n] the path reads [.m] and then only extension segments. *)
Definition methodSuffixAt (p : string) (n : nat) (m : string) : Prop :=
  In m methodTokens /\
  exists pre exts,
    String.length pre = n /\ p = pre ++ "." ++ m ++ exts /\ Extensions exts.

(** ** The generated module *)

(** No closing quote [q], no backslash and no line terminator: the text is
    its own string literal body. *)
Fixpoint plainFor (q : ascii) (s : string) : bool :=
  match s with
  | "" => true
  | String c s' =>
      negb (Ascii.eqb c q) && negb (isLineTerminator c) &&
      negb (Ascii.eqb c "\") && plainFor q s'
  end.

Section WithHash.

Variable hash : string -> string.

(** What precedes the array literal: the two groups of import lines. *)
Definition importsText (hs : list NitroEventHandler) : string :=
  trimStart (nl ++ JS.join nl (map (importLine hash) (imports hs)) ++ nl ++ nl ++
             JS.join nl (map (lazyImportLine hash) (lazyImports hs)) ++ nl ++ nl).

(** The array literal of the module. *)
Definition arrayLiteral (rows : list string) : string :=
  "export const handlers = [" ++ nl ++ JS.join ("," ++ nl) rows ++ nl ++ "];".

(** What a row says of its handler: the defaults applied, the binding in
    place of the module id. *)
Definition rowOf (h : NitroEventHandler) : Row :=
  {| row_route := orElse (route h) "";
     row_handler := getImportId hash (handler h) (isLazy h);
     row_lazy := toBool (lazy h);
     row_middleware := toBool (middleware h);
     row_method := method h |}.

(** A handler whose row can be read back: its route is its own literal body
    and its hash is made of identifier characters. *)
Definition readable (h : NitroEventHandler) : Prop :=
  plainFor "'" (orElse (route h) "") = true /\
  allIdentPart (slice0 6 (hash (handler h))) = true.

End WithHash.

End Notions.

(* ================================================================== *)
(** * Sample builds *)
(* ================================================================== *)

Module Scenarios.
Import JS Types Handlers RollupConfig.

(** A POSIX host with the runtime installed under [/nitro/dist]. *)
Definition posixHost : Host :=
  {| runtimeDir := "/nitro/dist/runtime";
     join := fun a b => a ++ "/" ++ b;
     resolve := fun a b => if b =? "../presets" then "/nitro/dist/presets" else a ++ "/" ++ b;
     builtinModules := ["fs"; "path"; "crypto"];
     isAbsolute := fun p => startsWith p "/";
     pathToFileURL := fun p => "file://" ++ p |}.

Definition userPosts : NitroEventHandler :=
  {| route := Some "/users/:id/posts"; handler := "/app/routes/users/[id]/posts.ts";
     lazy := Some true; middleware := None; method := None |}.

Definition usersGet : NitroEventHandler :=
  {| route := Some "/users"; handler := "handlers/users.get.ts";
     lazy := None; middleware := None; method := None |}.

Definition appNitro : Nitro :=
  {| options :=
       {| handlers := [userPosts; usersGet];
          serveStatic := true;
          renderer := Some "/app/renderer.ts";
          buildDir := "/app/.nitro";
          tasks := [("db:migrate",
                     {| task_handler := "/app/tasks/db/migrate.ts";
                        task_description := "Run database migrations" |})];
          node := true;
          dev := false;
          nodeModulesDirs := ["/app/node_modules"] |};
     scannedHandlers := [] |}.

(** Nothing is found anywhere. *)
Definition nothingResolves : Resolvers :=
  {| this_resolve := fun _ _ => None;
     resolveModulePath := fun _ _ => None |}.

(** A stand-in for [hash]: the hexadecimal codes of the path, padded. *)
Fixpoint hexOf (s : string) : string :=
  match s with
  | "" => ""
  | String c s' =>
      String (hexDigit (nat_of_ascii c / 16))
        (String (hexDigit (nat_of_ascii c mod 16)) (hexOf s'))
  end.

Definition sampleHash (p : string) : string := hexOf p ++ "zzzzzz".

(** A route with an apostrophe. *)
Definition apostrophe : NitroEventHandler :=
  {| route := Some "/it's"; handler := "h1"; lazy := None;
     middleware := None; method := None |}.

End Scenarios.

(* ================================================================== *)
(** * Further notions and sample inputs *)
(* ================================================================== *)

Module MoreNotions.
Import JS JSStrings Types Handlers RollupConfig RowReader.

(** No proper suffix of [sep] starts [sep] again. *)
Definition borderFree (sep : string) : Prop :=
  forall d y, sep = d ++ y -> d <> "" -> y <> "" -> startsWith sep y = false.

(** The character [c] does not occur in [s]. *)
Fixpoint noChar (c : ascii) (s : string) : bool :=
  match s with
  | "" => true
  | String d s' => negb (Ascii.eqb d c) && noChar c s'
  end.

(** The alphabet of URL-safe base64: letters, digits, [_] and [-]. *)
Fixpoint allBase64Url (s : string) : bool :=
  match s with
  | "" => true
  | String c s' => (isWord c || Ascii.eqb c "-") && allBase64Url s'
  end.

(** No two members of the list are equal. *)
Fixpoint distinctb (l : list string) : bool :=
  match l with
  | [] => true
  | x :: rest => negb (existsb (String.eqb x) rest) && distinctb rest
  end.

(** A stand-in for a [hash] with dashes in its output. *)
Definition dashedHash (p : string) : string := "a-b_" ++ Scenarios.hexOf p ++ "-9".

(** [normalize] on paths that are normal already. *)
Definition keep (p : string) : string := p.

End MoreNotions.

(* ================================================================== *)
(** * Facts about the string primitives *)
(* ================================================================== *)

Module JSFacts.
Import JS.

Lemma append_nil_r (s : string) : s ++ "" = s.
Proof. induction s; simpl; congruence. Qed.

Lemma append_assoc (a b c : string) : (a ++ b) ++ c = a ++ (b ++ c).
Proof. induction a; simpl; congruence. Qed.

Lemma length_append (a b : string) :
  String.length (a ++ b) = String.length a + String.length b.
Proof. induction a; simpl; congruence. Qed.

Lemma startsWith_iff (s p : string) :
  startsWith s p = true <-> exists r, s = p ++ r.
Proof.
  unfold startsWith. revert s.
  induction p as [|c p IH]; intros s; simpl.
  - destruct s; split; eauto.
  - destruct s as [|d s]; simpl.
    + split; [discriminate | intros [r Hr]; discriminate].
    + destruct (ascii_dec c d) as [->|Hne].
      * rewrite IH. split; intros [r Hr]; exists r; congruence.
      * split; [discriminate | intros [r Hr]; congruence].
Qed.

Lemma startsWith_append (p r : string) : startsWith (p ++ r) p = true.
Proof. apply startsWith_iff. eauto. Qed.

Lemma startsWith_trans (a b c : string) :
  startsWith a b = true -> startsWith b c = true -> startsWith a c = true.
Proof.
  rewrite !startsWith_iff. intros [r1 ->] [r2 ->].
  exists (r2 ++ r1). apply append_assoc.
Qed.

Lemma eqb_empty_false (c : ascii) (s : string) : (String c s =? "") = false.
Proof. reflexivity. Qed.

(** ** The matcher by derivatives decides the language *)

Lemma append_eq_nil (a b : string) : a ++ b = "" -> a = "" /\ b = "".
Proof. destruct a; simpl; [auto|discriminate]. Qed.

Lemma lang_cat_inv (r1 r2 : regex) (s : string) :
  lang (Cat r1 r2) s -> exists s1 s2, s = s1 ++ s2 /\ lang r1 s1 /\ lang r2 s2.
Proof. inversion 1; subst; eauto. Qed.

Lemma lang_alt_inv (r1 r2 : regex) (s : string) :
  lang (Alt r1 r2) s -> lang r1 s \/ lang r2 s.
Proof. inversion 1; subst; auto. Qed.

Lemma lang_cls_inv (p : ascii -> bool) (s : string) :
  lang (Cls p) s -> exists c, s = String c "" /\ p c = true.
Proof. inversion 1; subst; eauto. Qed.

Lemma lang_eps_inv (s : string) : lang Eps s -> s = "".
Proof. inversion 1; reflexivity. Qed.

Lemma lang_void_inv (s : string) : ~ lang Void s.
Proof. inversion 1. Qed.

Lemma nullable_lang (r : regex) : nullable r = true <-> lang r "".
Proof.
  induction r; simpl.
  - split; [discriminate|intros H; now apply lang_void_inv in H].
  - split; [constructor|reflexivity].
  - split; [discriminate|].
    intros H. apply lang_cls_inv in H as (c & E & _). discriminate.
  - rewrite andb_true_iff, IHr1, IHr2. split.
    + intros [H1 H2]. change "" with ("" ++ ""). now constructor.
    + intros H. apply lang_cat_inv in H as (s1 & s2 & E & H1 & H2).
      symmetry in E. apply append_eq_nil in E as [-> ->]. auto.
  - rewrite orb_true_iff, IHr1, IHr2. split.
    + intros [H|H]; [now apply lang_alt_l|now apply lang_alt_r].
    + apply lang_alt_inv.
  - split; [constructor|reflexivity].
Qed.

Lemma lang_cat_cons (r1 r2 : regex) (c : ascii) (s : string) :
  lang (Cat r1 r2) (String c s) ->
  (exists s1 s2, s = s1 ++ s2 /\ lang r1 (String c s1) /\ lang r2 s2) \/
  (lang r1 "" /\ lang r2 (String c s)).
Proof.
  intros H. apply lang_cat_inv in H as (s1 & s2 & E & H1 & H2).
  destruct s1 as [|d s1]; simpl in E.
  - right. subst. auto.
  - injection E as -> ->. left. eauto.
Qed.

Lemma lang_star_cons_inv (r : regex) (c : ascii) (s : string) :
  lang (Star r) (String c s) ->
  exists s1 s2, s = s1 ++ s2 /\ lang r (String c s1) /\ lang (Star r) s2.
Proof.
  intros H. remember (Star r) as r' eqn:Er. remember (String c s) as w eqn:Ew.
  revert s Ew.
  induction H as [| | | | | |r0 s1 s2 H1 _ H2 IH2]; try discriminate.
  intros s Ew. injection Er as ->.
  destruct s1 as [|d s1]; simpl in Ew.
  - now apply IH2.
  - injection Ew as <- <-. eauto.
Qed.

Lemma deriv_lang (c : ascii) (r : regex) (s : string) :
  lang (deriv c r) s <-> lang r (String c s).
Proof.
  revert s. induction r; intros s; simpl.
  - split; intros H; now apply lang_void_inv in H.
  - split; intros H; [now apply lang_void_inv in H|].
    apply lang_eps_inv in H. discriminate.
  - destruct (p c) eqn:E.
    + split; intros H.
      * apply lang_eps_inv in H as ->. now constructor.
      * apply lang_cls_inv in H as (d & [= <- ->] & _). constructor.
    + split; intros H; [now apply lang_void_inv in H|].
      apply lang_cls_inv in H as (d & [= <- ->] & Hp). congruence.
  - destruct (nullable r1) eqn:En.
    + split; intros H.
      * apply lang_alt_inv in H as [H|H].
        -- apply lang_cat_inv in H as (s1 & s2 & -> & Ha & Hb).
           apply IHr1 in Ha.
           change (String c (s1 ++ s2)) with (String c s1 ++ s2).
           now constructor.
        -- apply IHr2 in H. change (String c s) with ("" ++ String c s).
           constructor; [now apply nullable_lang|assumption].
      * apply lang_cat_cons in H as [(s1 & s2 & -> & Ha & Hb)|[Ha Hb]].
        -- apply lang_alt_l. constructor; [now apply IHr1|assumption].
        -- apply lang_alt_r. now apply IHr2.
    + split; intros H.
      * apply lang_cat_inv in H as (s1 & s2 & -> & Ha & Hb).
        apply IHr1 in Ha.
        change (String c (s1 ++ s2)) with (String c s1 ++ s2).
        now constructor.
      * apply lang_cat_cons in H as [(s1 & s2 & -> & Ha & Hb)|[Ha Hb]].
        -- constructor; [now apply IHr1|assumption].
        -- apply nullable_lang in Ha. congruence.
  - split; intros H; apply lang_alt_inv in H as [H|H];
      solve [apply lang_alt_l; now apply IHr1 | apply lang_alt_r; now apply IHr2].
  - split; intros H.
    + apply lang_cat_inv in H as (s1 & s2 & -> & Ha & Hb).
      apply IHr in Ha.
      change (String c (s1 ++ s2)) with (String c s1 ++ s2).
      now constructor.
    + apply lang_star_cons_inv in H as (s1 & s2 & -> & Ha & Hb).
      constructor; [now apply IHr|assumption].
Qed.

Lemma matches_lang (r : regex) (s : string) : matches r s = true <-> lang r s.
Proof.
  revert r. induction s as [|c s IH]; intros r; simpl.
  - apply nullable_lang.
  - rewrite IH. apply deriv_lang.
Qed.

Lemma lang_Lit (w s : string) : lang (Lit w) s <-> s = w.
Proof.
  revert s. induction w as [|c w IH]; intros s; simpl.
  - split; [apply lang_eps_inv|intros ->; constructor].
  - split.
    + intros H. apply lang_cat_inv in H as (s1 & s2 & -> & Ha & Hb).
      apply lang_cls_inv in Ha as (d & -> & Hd). apply IH in Hb. subst.
      apply Ascii.eqb_eq in Hd. now subst.
    + intros ->. change (String c w) with (String c "" ++ w).
      constructor; [constructor; apply Ascii.eqb_refl|now apply IH].
Qed.

End JSFacts.

(* ================================================================== *)
(** * The [no-externals] plugin *)
(* ================================================================== *)

Module NoExternalsSpec.
Import JS Types RollupConfig Notions JSFacts.

Lemma cannotResolve_names_id (i : string) (importer : option string) :
  names (cannotResolve i importer) (quoteJSON i).
Proof.
  exists "Cannot resolve ",
    (" from " ++ stringifyOpt importer ++ " and externals are not allowed!").
  reflexivity.
Qed.

Lemma cannotResolve_names_importer (i : string) (importer : option string) :
  names (cannotResolve i importer) (stringifyOpt importer).
Proof.
  exists ("Cannot resolve " ++ quoteJSON i ++ " from "),
    " and externals are not allowed!".
  unfold cannotResolve. now rewrite !append_assoc.
Qed.

Section Hook.

Variable host : Host.
Variable nitro : Nitro.
Variable resolvers : Resolvers.

Local Abbreviation resolveId := (resolveId host nitro resolvers).
Local Abbreviation fallbackOptions := (fallbackOptions host nitro).

Lemma resolveId_not_builtin (i : string) (importer : option string) :
  (node (options nitro) && isBuiltin host i) = false ->
  resolveId i importer =
    match this_resolve resolvers i importer with
    | None =>
        ([CallResolve i importer;
          CallResolveModulePath i (fallbackOptions importer)],
         match resolveModulePath resolvers i (fallbackOptions importer) with
         | Some r =>
             if r =? "" then Throw (cannotResolve i importer)
             else Return (Some {| id := r; external := false |})
         | None => Throw (cannotResolve i importer)
         end)
    | Some r =>
        ([CallResolve i importer],
         if external r && negb (endsWith i ".wasm")
         then Throw (cannotResolve i importer)
         else Return None)
    end.
Proof.
  intros Hb.
  unfold RollupConfig.resolveId, resolveIdBody, bind, when, callResolve,
    callResolveModulePath, leave, ret.
  rewrite Hb. simpl.
  destruct (this_resolve resolvers i importer) as [r|]; simpl.
  - destruct (external r && negb (endsWith i ".wasm")); reflexivity.
  - destruct (resolveModulePath resolvers i (fallbackOptions importer)) as [r|];
      [|reflexivity].
    simpl. destruct (r =? ""); reflexivity.
Qed.

(** C3. For an id that is not a runtime builtin: a failed primary resolution
    is followed by exactly one fallback call, over the module-search
    directories (the importer first when its path is absolute) with the
    suffixes [""] and ["/index"] and the fixed extension list; a failed
    fallback, or an external resolution of an id that does not end in
    [.wasm], throws an error that names the id and the importer. *)
Theorem strict_mode_unresolved_is_fatal (i : string) (importer : option string) :
  isBuiltin host i = false ->
  let opts := fallbackOptions importer in
  let dirs := nodeModulesDirs (options nitro) in
  (* the fallback searches these places *)
  suffixes opts = [""; "/index"] /\
  extensions opts = [".mjs"; ".cjs"; ".js"; ".mts"; ".cts"; ".ts"; ".json"] /\
  (forall imp, importer = Some imp -> imp <> "" -> isAbsolute host imp = true ->
     from opts = pathToFileURL host imp :: dirs) /\
  (forall imp, importer = Some imp -> isAbsolute host imp = false -> from opts = dirs) /\
  (importer = None -> from opts = dirs) /\
  (* the primary resolver fails *)
  (this_resolve resolvers i importer = None ->
     fst (resolveId i importer) =
       [CallResolve i importer; CallResolveModulePath i opts] /\
     (forall r, resolveModulePath resolvers i opts = Some r -> r <> "" ->
        snd (resolveId i importer) = Return (Some {| id := r; external := false |})) /\
     (truthy (resolveModulePath resolvers i opts) = false ->
        snd (resolveId i importer) = Throw (cannotResolve i importer))) /\
  (* the resolution is flagged external *)
  (forall r, this_resolve resolvers i importer = Some r ->
     external r = true -> endsWith i ".wasm" = false ->
     resolveId i importer = ([CallResolve i importer], Throw (cannotResolve i importer))) /\
  (* the error names the id and the importer *)
  names (cannotResolve i importer) (quoteJSON i) /\
  names (cannotResolve i importer) (stringifyOpt importer) /\
  (forall imp, importer = Some imp -> stringifyOpt importer = quoteJSON imp).
Proof.
  intros Hb opts dirs.
  assert (Hnb : (node (options nitro) && isBuiltin host i) = false)
    by (rewrite Hb; apply andb_false_r).
  pose proof (resolveId_not_builtin i importer Hnb) as Hr.
  repeat split.
  - intros imp -> Hne Habs. subst opts. simpl.
    destruct (imp =? "") eqn:E; [apply String.eqb_eq in E; contradiction|].
    simpl. now rewrite Habs.
  - intros imp -> Habs. subst opts. simpl.
    rewrite Habs. now rewrite andb_false_r.
  - intros ->. reflexivity.
  - rewrite Hr, H. reflexivity.
  - intros r Hf Hne. rewrite Hr, H. simpl. subst opts. rewrite Hf.
    destruct (r =? "") eqn:E; [apply String.eqb_eq in E; contradiction|reflexivity].
  - intros Hf. rewrite Hr, H. simpl. subst opts.
    destruct (resolveModulePath resolvers i (fallbackOptions importer)) as [r|];
      [|reflexivity].
    simpl in Hf. apply negb_false_iff in Hf. now rewrite Hf.
  - intros r Hp He Hw. rewrite Hr, Hp, He, Hw. reflexivity.
  - apply cannotResolve_names_id.
  - apply cannotResolve_names_importer.
  - intros imp ->. reflexivity.
Qed.

(** C9. With Node support, an id that starts with [node:] or is a builtin
    module is returned as external before any resolver is called, so the hook
    cannot throw for it. *)
Theorem builtin_never_unresolved (i : string) (importer : option string) :
  node (options nitro) = true ->
  isBuiltin host i = true ->
  resolveId i importer = ([], Return (Some {| id := i; external := true |})) /\
  (forall message, snd (resolveId i importer) <> Throw message).
Proof.
  intros Hn Hb.
  assert (E : resolveId i importer =
              ([], Return (Some {| id := i; external := true |}))).
  { unfold RollupConfig.resolveId, resolveIdBody, bind, when, leave.
    rewrite Hn, Hb. reflexivity. }
  split; [exact E|].
  intros message. rewrite E. discriminate.
Qed.

End Hook.

(** With nothing to be found, [left-pad] imported from [/app/server.ts] is
    looked up twice and then refused by name. *)
Lemma left_pad_is_fatal :
  fst (resolveId Scenarios.posixHost Scenarios.appNitro Scenarios.nothingResolves
         "left-pad" (Some "/app/server.ts")) =
    [CallResolve "left-pad" (Some "/app/server.ts");
     CallResolveModulePath "left-pad"
       {| try := true;
          from := ["file:///app/server.ts"; "/app/node_modules"];
          suffixes := [""; "/index"];
          extensions := [".mjs"; ".cjs"; ".js"; ".mts"; ".cts"; ".ts"; ".json"];
          conditions := ["default"; "production"; "node"; "import"; "require"] |}] /\
  snd (resolveId Scenarios.posixHost Scenarios.appNitro Scenarios.nothingResolves
         "left-pad" (Some "/app/server.ts")) =
    Throw ("Cannot resolve " ++ dquote ++ "left-pad" ++ dquote ++ " from " ++
           dquote ++ "/app/server.ts" ++ dquote ++ " and externals are not allowed!").
Proof.
  destruct (strict_mode_unresolved_is_fatal
              Scenarios.posixHost Scenarios.appNitro Scenarios.nothingResolves
              "left-pad" (Some "/app/server.ts") eq_refl)
    as (_ & _ & _ & _ & _ & Hfail & _).
  destruct (Hfail eq_refl) as (Hcalls & _ & Hthrow).
  split; [exact Hcalls|exact (Hthrow eq_refl)].
Defined.

(** [node:fs] is external at once. *)
Lemma node_fs_is_external :
  resolveId Scenarios.posixHost Scenarios.appNitro Scenarios.nothingResolves
    "node:fs" (Some "/app/server.ts") =
    ([], Return (Some {| id := "node:fs"; external := true |})).
Proof.
  exact (proj1 (builtin_never_unresolved
                  Scenarios.posixHost Scenarios.appNitro Scenarios.nothingResolves
                  "node:fs" (Some "/app/server.ts") eq_refl eq_refl)).
Defined.

End NoExternalsSpec.

(* ================================================================== *)
(** * The chunk classifier *)
(* ================================================================== *)

Module ChunkSpec.
Import JS Types RollupConfig Notions JSFacts.

Lemma rewriteSegment_cases (s : string) :
  rewriteSegment s = s \/
  exists c x, s = String ":" (String c x) /\ rewriteSegment s = String "_" (String c x).
Proof.
  destruct s as [|a s]; [now left|].
  destruct (Ascii.eqb_spec a ":") as [->|Hn].
  - destruct s as [|c x]; [now left|]. right. now exists c, x.
  - left. unfold rewriteSegment.
    destruct a as [[] [] [] [] [] [] [] []]; try reflexivity. now elim Hn.
Qed.

Lemma replaceParams_inMatch (x rest : string) :
  noSlash x = true ->
  (rest = "" \/ exists r, rest = "/" ++ r) ->
  replaceParams true (x ++ rest) = x ++ replaceParams false rest.
Proof.
  intros Hx Hrest. induction x as [|c x IH]; simpl in *.
  - destruct Hrest as [->|[r ->]]; reflexivity.
  - apply andb_true_iff in Hx as [Hc Hx].
    apply negb_true_iff in Hc. rewrite Hc. now rewrite IH.
Qed.

Lemma replaceParams_plain (s rest : string) :
  noSlash s = true -> noColon s = true ->
  replaceParams false (s ++ rest) = s ++ replaceParams false rest.
Proof.
  intros Hs Hc. induction s as [|c s IH]; simpl in *; [reflexivity|].
  apply andb_true_iff in Hs as [Hs1 Hs2].
  apply andb_true_iff in Hc as [Hc1 Hc2].
  apply negb_true_iff in Hs1, Hc1. rewrite Hs1, Hc1. simpl.
  now rewrite IH.
Qed.

Lemma replaceParams_segment (s rest : string) :
  segment s ->
  (rest = "" \/ exists r, rest = "/" ++ r) ->
  replaceParams false (s ++ rest) = rewriteSegment s ++ replaceParams false rest.
Proof.
  intros (Hne & Hs & Hshape) Hrest.
  destruct Hshape as [[x ->]|Hc].
  - simpl in Hs. destruct x as [|d x]; simpl.
    + destruct Hrest as [->|[r ->]]; reflexivity.
    + simpl in Hs. apply andb_true_iff in Hs as [Hd Hx].
      rewrite Hd. simpl. apply negb_true_iff in Hd. rewrite Hd.
      now rewrite replaceParams_inMatch.
  - rewrite replaceParams_plain by assumption.
    destruct (rewriteSegment_cases s) as [-> | (c & x & -> & _)]; [reflexivity|].
    discriminate Hc.
Qed.

Lemma replaceParams_ofSegments (segs : list string) :
  Forall segment segs ->
  replaceParams false (ofSegments segs) = ofSegments (map rewriteSegment segs).
Proof.
  induction 1 as [|s segs Hs Hsegs IH]; simpl; [reflexivity|].
  f_equal. rewrite replaceParams_segment; [now rewrite IH|assumption|].
  destruct segs; simpl; eauto.
Qed.

Lemma rewriteSegment_plain (s : string) :
  s <> "" -> noSlash s = true ->
  rewriteSegment s <> "" /\ noSlash (rewriteSegment s) = true.
Proof.
  intros Hne Hs.
  destruct (rewriteSegment_cases s) as [-> | (c & x & -> & ->)]; [now split|].
  split; [discriminate|].
  simpl in *. exact Hs.
Qed.

Lemma noSlash_append_slash (a b : string) : noSlash (a ++ String "/" b) = false.
Proof.
  induction a as [|c a IH]; simpl; [reflexivity|].
  rewrite IH. apply andb_false_r.
Qed.

Lemma stripLastSegment_last (s : string) :
  s <> "" -> noSlash s = true -> stripLastSegment (String "/" s) = "".
Proof.
  intros Hne Hs. simpl. rewrite Hs.
  destruct s; [contradiction|reflexivity].
Qed.

Lemma stripLastSegment_inner (s t : string) :
  noSlash s = true ->
  stripLastSegment (String "/" (s ++ String "/" t)) =
    String "/" (s ++ stripLastSegment (String "/" t)).
Proof.
  intros Hs.
  change (stripLastSegment (String "/" (s ++ String "/" t)))
    with (if isSlash "/" && negb (s ++ String "/" t =? "")
             && noSlash (s ++ String "/" t)
          then "" else String "/" (stripLastSegment (s ++ String "/" t))).
  rewrite noSlash_append_slash, andb_false_r. f_equal.
  induction s as [|c s IH]; [reflexivity|].
  simpl in Hs. apply andb_true_iff in Hs as [Hc Hs].
  apply negb_true_iff in Hc.
  change (stripLastSegment (String c s ++ String "/" t))
    with (if isSlash c && negb (s ++ String "/" t =? "")
             && noSlash (s ++ String "/" t)
          then "" else String c (stripLastSegment (s ++ String "/" t))).
  rewrite Hc. simpl. now rewrite IH.
Qed.

Lemma stripLastSegment_ofSegments (segs : list string) :
  Forall (fun s => s <> "" /\ noSlash s = true) segs ->
  stripLastSegment (ofSegments segs) = ofSegments (removelast segs).
Proof.
  induction 1 as [|s segs [Hne Hs] Hsegs IH]; [reflexivity|].
  destruct segs as [|s' segs].
  - simpl. rewrite append_nil_r. now apply stripLastSegment_last.
  - change (removelast (s :: s' :: segs)) with (s :: removelast (s' :: segs)).
    change (ofSegments (s :: removelast (s' :: segs)))
      with (String "/" (s ++ ofSegments (removelast (s' :: segs)))).
    rewrite <- IH.
    change (ofSegments (s :: s' :: segs))
      with (String "/" (s ++ String "/" (s' ++ ofSegments segs))).
    now apply stripLastSegment_inner.
Qed.

Lemma removelast_map_comm {A B} (f : A -> B) (l : list A) :
  removelast (map f l) = map f (removelast l).
Proof.
  induction l as [|x [|y l] IH]; try reflexivity.
  change (removelast (map f (x :: y :: l)))
    with (f x :: removelast (map f (y :: l))).
  now rewrite IH.
Qed.

(** The route path of a route given by its segments: parameters rewritten,
    last segment dropped, [/] when nothing is left. *)
Lemma routePath_ofSegments (segs : list string) :
  Forall segment segs ->
  routePath (ofSegments segs) =
    orElse (Some (ofSegments (map rewriteSegment (removelast segs)))) "/".
Proof.
  intros Hsegs. unfold routePath.
  rewrite replaceParams_ofSegments by assumption.
  rewrite stripLastSegment_ofSegments.
  - now rewrite removelast_map_comm.
  - apply Forall_map. eapply Forall_impl; [|exact Hsegs].
    intros s (Hne & Hs & _). now apply rewriteSegment_plain.
Qed.

(** ** The order of resolution *)

Lemma knownPrefix_firstMatch table id n name :
  firstMatch table id n name -> knownPrefix id table = Some (label name).
Proof.
  revert n. induction table as [|[d g] table IH]; intros n (dir & Hn & Hs & Hlt).
  - destruct n; discriminate.
  - destruct n as [|n]; simpl in *.
    + injection Hn as -> ->. now rewrite Hs.
    + rewrite (Hlt 0 d g) by (simpl; auto with arith).
      apply (IH n). exists dir. repeat split; try assumption.
      intros k d' g' Hk Hk'. apply (Hlt (S k) d' g'); [lia|exact Hk'].
Qed.

Lemma knownPrefix_noMatch table id :
  noMatch table id -> knownPrefix id table = None.
Proof.
  induction table as [|[d g] table IH]; intros Hno; [reflexivity|].
  simpl. rewrite (Hno d g) by now left.
  apply IH. intros dir name Hin. apply (Hno dir name). now right.
Qed.

Lemma knownPrefix_Some table id x :
  knownPrefix id table = Some x ->
  exists dir name, In (dir, name) table /\ startsWith id dir = true /\ x = label name.
Proof.
  induction table as [|[d g] table IH]; [discriminate|].
  simpl. destruct (startsWith id d) eqn:E.
  - intros [= <-]. exists d, g. auto.
  - intros H. destruct (IH H) as (dir & name & Hin & Hs & ->).
    exists dir, name. auto.
Qed.

Lemma find_app_first {A} (f : A -> bool) (l1 l2 : list A) :
  find f (l1 ++ l2)%list =
    match find f l1 with
    | Some x => Some x
    | None => find f l2
    end.
Proof.
  induction l1 as [|x l1 IH]; [reflexivity|].
  simpl. destruct (f x); [reflexivity|exact IH].
Qed.

Lemma routePath_nonempty (r : string) : routePath r <> "".
Proof.
  unfold routePath, orElse.
  destruct (stripLastSegment (replaceParams false r)) eqn:E; simpl; discriminate.
Qed.

Section Classifier.

Variable host : Host.
Variable nitro : Nitro.

Local Abbreviation getChunkName := (getChunkName host nitro).
Local Abbreviation table := (chunkNamePrefixes host nitro).
Local Abbreviation routeHandler := (routeHandler nitro).

Lemma table_groups dir name :
  In (dir, name) table -> In name ["build"; "app"; "nitro"; "raw"; "wasm"; "virtual"].
Proof.
  unfold chunkNamePrefixes. simpl.
  intros [H|[H|[H|[H|[H|[H|[H|[]]]]]]]]; injection H as _ <-; auto 10.
Qed.



End Classifier.



End ChunkSpec.

(* ================================================================== *)
(** * The handler aggregation compiler *)
(* ================================================================== *)

Module HandlersSpec.
Import JS Types Handlers RowReader Notions JSFacts.

(** ** Method inference *)

Lemma lang_star_ind (r : regex) (P : string -> Prop) :
  P "" ->
  (forall s1 s2, lang r s1 -> lang (Star r) s2 -> P s2 -> P (s1 ++ s2)) ->
  forall s, lang (Star r) s -> P s.
Proof.
  intros Hnil Hcons s H. remember (Star r) as r' eqn:Er.
  induction H as [| | | | | |r0 s1 s2 H1 _ H2 IH2]; try discriminate.
  - exact Hnil.
  - injection Er as ->. apply Hcons; auto.
Qed.

Lemma lang_words (s : string) : lang (Star (Cls isWord)) s <-> allWord s = true.
Proof.
  split.
  - revert s.
    apply (lang_star_ind (Cls isWord) (fun s => allWord s = true)); [reflexivity|].
    intros s1 s2 H1 _ IH. apply lang_cls_inv in H1 as (c & -> & Hc).
    simpl. now rewrite Hc.
  - induction s as [|c s IH]; simpl; [constructor|].
    intros H. apply andb_true_iff in H as [Hc Hs].
    change (String c s) with (String c "" ++ s).
    constructor; [now constructor|auto].
Qed.

Lemma lang_word_plus (s : string) :
  lang (Plus (Cls isWord)) s <-> s <> "" /\ allWord s = true.
Proof.
  unfold Plus. split.
  - intros H. apply lang_cat_inv in H as (s1 & s2 & -> & H1 & H2).
    apply lang_cls_inv in H1 as (c & -> & Hc). apply lang_words in H2.
    simpl. rewrite Hc, H2. split; [discriminate|reflexivity].
  - intros [Hne H]. destruct s as [|c s]; [contradiction|].
    simpl in H. apply andb_true_iff in H as [Hc Hs].
    change (String c s) with (String c "" ++ s).
    constructor; [now constructor|now apply lang_words].
Qed.

Lemma lang_extensions (s : string) : lang extensions s <-> Extensions s.
Proof.
  unfold extensions. split.
  - revert s. apply (lang_star_ind _ Extensions); [constructor|].
    intros s1 s2 H1 _ IH.
    apply lang_cat_inv in H1 as (d & w & -> & Hd & Hw).
    apply lang_Lit in Hd as ->. apply lang_word_plus in Hw as [Hne Hw].
    rewrite append_assoc. now constructor.
  - induction 1 as [|w rest Hne Hw _ IH]; [constructor|].
    rewrite <- append_assoc. constructor; [|exact IH].
    constructor; [now apply lang_Lit|now apply lang_word_plus].
Qed.

Lemma matches_token (m rest : string) :
  matches (Cat (Lit m) extensions) rest = true <->
  exists exts, rest = m ++ exts /\ Extensions exts.
Proof.
  rewrite matches_lang. split.
  - intros H. apply lang_cat_inv in H as (s1 & s2 & -> & H1 & H2).
    apply lang_Lit in H1 as ->. apply lang_extensions in H2. eauto.
  - intros (exts & -> & He). constructor; [now apply lang_Lit|now apply lang_extensions].
Qed.

(** Two tokens that read at the same place are the same token. *)
Lemma token_unique (m m' e e' : string) :
  In m methodTokens -> In m' methodTokens -> m ++ e = m' ++ e' -> m = m'.
Proof.
  unfold methodTokens. simpl.
  intros Hm Hm' E.
  repeat match goal with
         | H : _ \/ _ |- _ => destruct H as [H|H]
         | H : False |- _ => destruct H
         end; subst; simpl in E; solve [reflexivity | discriminate E].
Qed.

Lemma matchMethodHere_cons (c : ascii) (rest : string) :
  matchMethodHere (String c rest) =
    if Ascii.eqb c "."
    then find (fun m => matches (Cat (Lit m) extensions) rest) methodTokens
    else None.
Proof.
  destruct (Ascii.eqb_spec c ".") as [->|Hn]; [reflexivity|].
  unfold matchMethodHere.
  destruct c as [[] [] [] [] [] [] [] []]; try reflexivity. now elim Hn.
Qed.

Lemma length_zero_empty (s : string) : String.length s = 0 -> s = "".
Proof. destruct s; [reflexivity|discriminate]. Qed.

Lemma matchMethodHere_spec (p m : string) :
  matchMethodHere p = Some m <-> methodSuffixAt p 0 m.
Proof.
  split.
  - destruct p as [|c rest]; [discriminate|].
    rewrite matchMethodHere_cons.
    destruct (Ascii.eqb_spec c ".") as [->|]; [|discriminate].
    intros H. apply find_some in H as [Hin Hm].
    apply matches_token in Hm as (exts & -> & He).
    split; [exact Hin|]. exists "", exts. auto.
  - intros (Hin & pre & exts & Hlen & -> & He).
    apply length_zero_empty in Hlen as ->.
    change ("" ++ "." ++ m ++ exts) with (String "." (m ++ exts)).
    rewrite matchMethodHere_cons. simpl Ascii.eqb. cbv iota.
    destruct (find (fun m0 => matches (Cat (Lit m0) extensions) (m ++ exts)) methodTokens)
      as [m'|] eqn:Ef.
    + apply find_some in Ef as [Hin' Hm'].
      apply matches_token in Hm' as (e' & E & _).
      f_equal. symmetry. exact (token_unique _ _ _ _ Hin Hin' E).
    + pose proof (find_none _ _ Ef m Hin) as Hno. simpl in Hno.
      assert (Hyes : matches (Cat (Lit m) extensions) (m ++ exts) = true)
        by (apply matches_token; eauto).
      congruence.
Qed.

Lemma methodSuffixAt_S (c : ascii) (p : string) (n : nat) (m : string) :
  methodSuffixAt (String c p) (S n) m <-> methodSuffixAt p n m.
Proof.
  split; intros (Hin & pre & exts & Hlen & E & He); (split; [exact Hin|]).
  - destruct pre as [|d pre]; [discriminate|].
    simpl in E, Hlen. injection E as -> ->. exists pre, exts. auto.
  - exists (String c pre), exts. simpl. rewrite Hlen, E. auto.
Qed.

(** [matchMethod] finds the token of the leftmost place where the path reads
    [.token] followed by extension segments only. *)
Lemma matchMethod_Some (p m : string) :
  matchMethod p = Some m <->
  exists n, methodSuffixAt p n m /\
            forall k m', k < n -> ~ methodSuffixAt p k m'.
Proof.
  induction p as [|c p IH].
  - simpl. split; [discriminate|].
    intros (n & (_ & pre & exts & _ & E & _) & _).
    destruct pre; discriminate.
  - change (matchMethod (String c p))
      with (match matchMethodHere (String c p) with
            | Some m0 => Some m0
            | None => matchMethod p
            end).
    destruct (matchMethodHere (String c p)) as [m0|] eqn:Eh.
    + apply matchMethodHere_spec in Eh. split.
      * intros [= <-]. exists 0. split; [exact Eh|]. intros k m' Hk. lia.
      * intros (n & Hn & Hleft). destruct n as [|n].
        -- apply matchMethodHere_spec in Hn, Eh. congruence.
        -- elim (Hleft 0 m0); [lia|exact Eh].
    + rewrite IH. split.
      * intros (n & Hn & Hleft). exists (S n). split.
        -- now apply <- methodSuffixAt_S.
        -- intros k m' Hk Hat. destruct k as [|k].
           ++ apply matchMethodHere_spec in Hat. congruence.
           ++ apply -> methodSuffixAt_S in Hat. apply (Hleft k m'); [lia|exact Hat].
      * intros (n & Hn & Hleft). destruct n as [|n].
        -- apply matchMethodHere_spec in Hn. congruence.
        -- exists n. split; [now apply -> methodSuffixAt_S in Hn|].
           intros k m' Hk Hat. apply (Hleft (S k) m'); [lia|].
           now apply <- methodSuffixAt_S.
Qed.

Lemma matchMethod_None (p : string) :
  matchMethod p = None <-> forall n m, ~ methodSuffixAt p n m.
Proof.
  induction p as [|c p IH].
  - simpl. split; [|reflexivity].
    intros _ n m (_ & pre & exts & _ & E & _). destruct pre; discriminate.
  - change (matchMethod (String c p))
      with (match matchMethodHere (String c p) with
            | Some m0 => Some m0
            | None => matchMethod p
            end).
    destruct (matchMethodHere (String c p)) as [m0|] eqn:Eh.
    + split; [discriminate|].
      intros Hno. apply matchMethodHere_spec in Eh. now elim (Hno 0 m0).
    + rewrite IH. split.
      * intros Hno n m Hat. destruct n as [|n].
        -- apply matchMethodHere_spec in Hat. congruence.
        -- apply -> methodSuffixAt_S in Hat. now apply (Hno n m).
      * intros Hno n m Hat. apply (Hno (S n) m). now apply <- methodSuffixAt_S.
Qed.


(** ** Identifiers *)

Lemma length_slice0 (n : nat) (s : string) :
  n <= String.length s -> String.length (slice0 n s) = n.
Proof.
  unfold slice0. revert s. induction n as [|n IH]; intros s Hn.
  - destruct s; reflexivity.
  - destruct s as [|c s]; simpl in *; [lia|].
    rewrite IH; [reflexivity|lia].
Qed.

Lemma slice0_prefix (n : nat) (s : string) : startsWith s (slice0 n s) = true.
Proof.
  apply startsWith_iff. unfold slice0. revert s.
  induction n as [|n IH]; intros s.
  - exists s. destruct s; reflexivity.
  - destruct s as [|c s]; simpl.
    + now exists "".
    + destruct (IH s) as [r Hr]. exists r. now rewrite <- Hr.
Qed.

Section Identifiers.

Variable hash : string -> string.

Local Abbreviation getImportId := (getImportId hash).


End Identifiers.

(** ** The shape of the generated module *)

Lemma append_nonempty_r (a b : string) : b <> "" -> (a ++ b =? "") = false.
Proof.
  intros Hb. destruct a; simpl; [|reflexivity].
  destruct b; [contradiction|reflexivity].
Qed.

Lemma trimEnd_append (a b : string) :
  trimEnd b <> "" -> trimEnd (a ++ b) = a ++ trimEnd b.
Proof.
  intros Hb. induction a as [|c a IH]; [reflexivity|].
  simpl. rewrite IH.
  rewrite (append_nonempty_r a (trimEnd b) Hb).
  now rewrite andb_false_r.
Qed.

Lemma trimStart_append (a : string) (c : ascii) (b : string) :
  isWhiteSpace c = false ->
  trimStart (a ++ String c b) = trimStart a ++ String c b.
Proof.
  intros Hc. induction a as [|d a IH]; simpl.
  - now rewrite Hc.
  - destruct (isWhiteSpace d); [exact IH|reflexivity].
Qed.

Section GeneratedModule.

Variable hash : string -> string.

Local Abbreviation handlerRow := (handlerRow hash).
Local Abbreviation handlerRows := (handlerRows hash).
Local Abbreviation generateCode := (generateCode hash).
Local Abbreviation importsText := (importsText hash).

Lemma generateCode_shape (hs : list NitroEventHandler) :
  generateCode hs = importsText hs ++ arrayLiteral (handlerRows hs).
Proof.
  unfold Handlers.generateCode, trim, importsText, arrayLiteral.
  set (I := join nl (map (importLine hash) (imports hs))).
  set (L := join nl (map (lazyImportLine hash) (lazyImports hs))).
  set (R := join ("," ++ nl) (handlerRows hs)).
  replace (nl ++ I ++ nl ++ nl ++ L ++ nl ++ nl ++
           "export const handlers = [" ++ nl ++ R ++ nl ++ "];" ++ nl ++ "  ")
    with ((nl ++ I ++ nl ++ nl ++ L ++ nl ++ nl ++
           "export const handlers = [" ++ nl ++ R ++ nl) ++ ("];" ++ nl ++ "  "))
    by (now rewrite !append_assoc).
  rewrite trimEnd_append by (simpl; discriminate).
  change (trimEnd ("];" ++ nl ++ "  ")) with "];".
  replace ((nl ++ I ++ nl ++ nl ++ L ++ nl ++ nl ++
            "export const handlers = [" ++ nl ++ R ++ nl) ++ "];")
    with ((nl ++ I ++ nl ++ nl ++ L ++ nl ++ nl) ++
          String "e" ("xport const handlers = [" ++ nl ++ R ++ nl ++ "];"))
    by (rewrite !append_assoc; reflexivity).
  rewrite trimStart_append by reflexivity.
  reflexivity.
Qed.


End GeneratedModule.

(** ** The debug dump *)

Lemma length_eqb_zero {A} (l : list A) : (length l =? 0)%nat = true <-> l = [].
Proof. rewrite Nat.eqb_eq. destruct l; simpl; split; congruence. Qed.

Section Dump.

Variable hash : string -> string.
Variable dumpHandler : list NitroEventHandler -> string.

Local Abbreviation generate := (generate hash dumpHandler).
Local Abbreviation generateAll := (generateAll hash dumpHandler).

(** C8. In debug mode an invocation prints the dump exactly when it differs
    from the stored one and the table is not empty, and it stores the dump
    it computed; otherwise it prints nothing. Outside debug mode nothing is
    printed and the stored dump stays. The module text is the same whatever
    the mode and the stored dump. *)
Theorem dump_is_printed_only_on_change
  (isDebug : bool) (nitro : Nitro) (lastDump : string) :
  let hs := collectHandlers nitro in
  let dumped := dumpHandler hs in
  let r := generate isDebug nitro lastDump in
  (logged r = [dumped] <-> isDebug = true /\ dumped <> lastDump /\ hs <> []) /\
  (logged r = [] <-> isDebug = false \/ dumped = lastDump \/ hs = []) /\
  nextDump r = (if isDebug then dumped else lastDump) /\
  code r = Handlers.generateCode hash hs /\
  (forall isDebug' lastDump', code (generate isDebug' nitro lastDump') = code r) /\
  (forall rest,
     generateAll isDebug (nitro :: rest) lastDump =
       r :: generateAll isDebug rest (if isDebug then dumped else lastDump)).
Proof.
  intros hs dumped r.
  assert (Hlog : logged r =
                 if isDebug && negb (dumped =? lastDump) && negb (length hs =? 0)%nat
                 then [dumped] else []).
  { subst r. unfold Handlers.generate. fold hs. fold dumped.
    destruct isDebug; [|reflexivity].
    destruct (dumped =? lastDump); [reflexivity|].
    destruct (length hs =? 0)%nat; reflexivity. }
  assert (Hnext : nextDump r = if isDebug then dumped else lastDump).
  { subst r. unfold Handlers.generate. fold hs. fold dumped.
    destruct isDebug; [|reflexivity].
    destruct (dumped =? lastDump) eqn:E; [|reflexivity].
    apply String.eqb_eq in E. now rewrite E. }
  assert (Hcode : forall d l, code (generate d nitro l) = Handlers.generateCode hash hs).
  { intros d l. unfold Handlers.generate. fold hs. fold dumped.
    destruct d; [|reflexivity].
    destruct (dumped =? l); reflexivity. }
  repeat split.
  - rewrite Hlog in H.
    destruct isDebug; [reflexivity|discriminate].
  - rewrite Hlog in H. intros E. apply String.eqb_eq in E. rewrite E in H.
    rewrite andb_false_r in H. discriminate.
  - rewrite Hlog in H. intros E. apply length_eqb_zero in E. rewrite E in H.
    rewrite andb_false_r in H. discriminate.
  - intros (-> & Hne & Hnil). rewrite Hlog.
    apply String.eqb_neq in Hne. rewrite Hne.
    destruct (length hs =? 0)%nat eqn:E; [apply length_eqb_zero in E; contradiction|].
    reflexivity.
  - rewrite Hlog. destruct isDebug; [|now left]. right.
    destruct (dumped =? lastDump) eqn:E; [left; now apply String.eqb_eq|].
    destruct (length hs =? 0)%nat eqn:E'; [right; now apply length_eqb_zero|].
    discriminate.
  - rewrite Hlog. intros [->|[E|E]]; [reflexivity| |].
    + apply String.eqb_eq in E. rewrite E. now rewrite andb_false_r.
    + apply length_eqb_zero in E. rewrite E. now rewrite andb_false_r.
  - exact Hnext.
  - apply Hcode.
  - intros d l. subst r. now rewrite !Hcode.
  - intros rest. simpl. fold r. now rewrite Hnext.
Qed.

End Dump.

(** ** Reading the rows back *)

Lemma In_unique (x : string) (l : list string) : In x (unique l) <-> In x l.
Proof.
  induction l as [|y l IH]; [reflexivity|].
  simpl. rewrite filter_In, IH. split.
  - intros [H|[H _]]; auto.
  - intros [H|H]; [now left|].
    destruct (String.eqb_spec x y) as [->|Hne]; [now left|].
    right. now split.
Qed.

Lemma expect_append (lit rest : string) : expect lit (lit ++ rest) = Some rest.
Proof.
  induction lit as [|c lit IH]; [reflexivity|].
  simpl. now rewrite Ascii.eqb_refl.
Qed.

Lemma readString_plain (q : ascii) (s rest : string) :
  plainFor q s = true -> readString q (s ++ String q rest) = Some (s, rest).
Proof.
  induction s as [|c s IH]; intros Hs.
  - simpl. now rewrite Ascii.eqb_refl.
  - simpl in Hs.
    apply andb_true_iff in Hs as [Hs Hrest].
    apply andb_true_iff in Hs as [Hs Hb].
    apply andb_true_iff in Hs as [Hq Hl].
    apply negb_true_iff in Hq, Hl, Hb.
    change (readString q (String c s ++ String q rest))
      with (if Ascii.eqb c q then Some ("", s ++ String q rest)
            else if isLineTerminator c then None
            else if Ascii.eqb c "\" then
              match s ++ String q rest with
              | "" => None
              | String e s'' =>
                  if Ascii.eqb e "u" then
                    match s'' with
                    | String h1 (String h2 (String h3 (String h4 rest'))) =>
                        match codeUnit [hexValue h1; hexValue h2; hexValue h3; hexValue h4] with
                        | Some v => push v (readString q rest')
                        | None => None
                        end
                    | _ => None
                    end
                  else if Ascii.eqb e "x" then
                    match s'' with
                    | String h1 (String h2 rest') =>
                        match codeUnit [hexValue h1; hexValue h2] with
                        | Some v => push v (readString q rest')
                        | None => None
                        end
                    | _ => None
                    end
                  else if isLineTerminator e then readString q s''
                  else if isDigit e then
                    if Ascii.eqb e "0" &&
                       match s'' with
                       | "" => true
                       | String d _ => negb (isDigit d)
                       end
                    then push (ascii_of_nat 0) (readString q s'')
                    else None
                  else push (unescape e) (readString q s'')
              end
            else push c (readString q (s ++ String q rest))).
    rewrite Hq, Hl, Hb, (IH Hrest). reflexivity.
Qed.

Lemma readString_jsonEscape (c : ascii) (rest : string) :
  readString (ascii_of_nat 34) (jsonEscape c ++ rest) =
    push c (readString (ascii_of_nat 34) rest).
Proof.
  destruct c as [[] [] [] [] [] [] [] []]; reflexivity.
Qed.

Lemma readString_json (s rest : string) :
  readString (ascii_of_nat 34) (jsonEscapeAll s ++ dquote ++ rest) = Some (s, rest).
Proof.
  induction s as [|c s IH]; [reflexivity|].
  simpl jsonEscapeAll. rewrite append_assoc, readString_jsonEscape, IH.
  reflexivity.
Qed.

Lemma readMethod_stringify (m : option string) (rest : string) :
  readMethod (stringifyOpt m ++ rest) = Some (m, rest).
Proof.
  destruct m as [s|]; [|reflexivity].
  unfold readMethod, stringifyOpt, quoteJSON.
  rewrite !append_assoc.
  change (expect "undefined" (dquote ++ jsonEscapeAll s ++ dquote ++ rest))
    with (@None string).
  cbv iota. rewrite expect_append, readString_json.
  reflexivity.
Qed.

Lemma readBool_show (b : bool) (rest : string) :
  readBool (showBool b ++ rest) = Some (b, rest).
Proof. destruct b; reflexivity. Qed.

Lemma readIdentPart_append (a : string) (d : ascii) (rest : string) :
  allIdentPart a = true -> isIdentPart d = false ->
  readIdentPart (a ++ String d rest) = (a, String d rest).
Proof.
  intros Ha Hd. induction a as [|c a IH]; simpl.
  - now rewrite Hd.
  - simpl in Ha. apply andb_true_iff in Ha as [Hc Ha].
    now rewrite Hc, IH.
Qed.

Section RoundTrip.

Variable hash : string -> string.

Local Abbreviation getImportId := (getImportId hash).
Local Abbreviation handlerRow := (handlerRow hash).
Local Abbreviation handlerRows := (handlerRows hash).
Local Abbreviation rowOf := (rowOf hash).
Local Abbreviation readable := (readable hash).

Lemma validBinding_getImportId (p : string) (v : bool) :
  allIdentPart (slice0 6 (hash p)) = true ->
  allIdentPart (getImportId p v) = true /\ validBinding (getImportId p v) = true.
Proof.
  intros H. unfold Handlers.getImportId. destruct v; simpl; auto.
Qed.

Lemma readRow_handlerRow (h : NitroEventHandler) (rest : string) :
  readable h -> readRow (handlerRow h ++ rest) = Some (rowOf h, rest).
Proof.
  intros [Hroute Hid].
  destruct (validBinding_getImportId (handler h) (isLazy h) Hid) as [Hall Hvalid].
  unfold readRow, Handlers.handlerRow.
  rewrite !append_assoc.
  rewrite expect_append.
  change ("', handler: " ++ getImportId (handler h) (isLazy h) ++
          ", lazy: " ++ showBool (toBool (lazy h)) ++
          ", middleware: " ++ showBool (toBool (middleware h)) ++
          ", method: " ++ stringifyOpt (method h) ++ " }" ++ rest)
    with (String "'" (", handler: " ++ getImportId (handler h) (isLazy h) ++
          ", lazy: " ++ showBool (toBool (lazy h)) ++
          ", middleware: " ++ showBool (toBool (middleware h)) ++
          ", method: " ++ stringifyOpt (method h) ++ " }" ++ rest)).
  rewrite readString_plain by exact Hroute.
  rewrite expect_append.
  unfold readIdent.
  change (", lazy: " ++ showBool (toBool (lazy h)) ++
          ", middleware: " ++ showBool (toBool (middleware h)) ++
          ", method: " ++ stringifyOpt (method h) ++ " }" ++ rest)
    with (String "," (" lazy: " ++ showBool (toBool (lazy h)) ++
          ", middleware: " ++ showBool (toBool (middleware h)) ++
          ", method: " ++ stringifyOpt (method h) ++ " }" ++ rest)).
  rewrite readIdentPart_append by (exact Hall || reflexivity).
  rewrite Hvalid.
  change (String "," (" lazy: " ++ showBool (toBool (lazy h)) ++
          ", middleware: " ++ showBool (toBool (middleware h)) ++
          ", method: " ++ stringifyOpt (method h) ++ " }" ++ rest))
    with (", lazy: " ++ showBool (toBool (lazy h)) ++
          ", middleware: " ++ showBool (toBool (middleware h)) ++
          ", method: " ++ stringifyOpt (method h) ++ " }" ++ rest).
  rewrite expect_append, readBool_show, expect_append, readBool_show.
  rewrite expect_append, readMethod_stringify, expect_append.
  reflexivity.
Qed.

Lemma parseRow_handlerRow (h : NitroEventHandler) :
  readable h -> parseRow (handlerRow h) = Some (rowOf h).
Proof.
  intros Hh. unfold parseRow.
  rewrite <- (append_nil_r (handlerRow h)).
  now rewrite readRow_handlerRow.
Qed.

Lemma readRows_S (fuel : nat) (t : string) :
  readRows (S fuel) t =
    let? (row, s) := readRow t in
    match expect ("," ++ nl) s with
    | Some s' =>
        let? rows := readRows fuel s' in
        Some (row :: rows)
    | None =>
        let? s' := expect (nl ++ "];") s in
        if s' =? "" then Some [row] else None
    end.
Proof. reflexivity. Qed.

Lemma readRows_join (hs : list NitroEventHandler) (fuel : nat) :
  hs <> [] -> length hs <= fuel -> Forall readable hs ->
  readRows fuel (JS.join ("," ++ nl) (handlerRows hs) ++ nl ++ "];") =
    Some (map rowOf hs).
Proof.
  revert fuel. induction hs as [|h hs IH]; intros fuel Hne Hfuel Hall;
    [contradiction|].
  inversion Hall as [|? ? Hh Hhs]; subst.
  destruct fuel as [|fuel]; [simpl in Hfuel; lia|].
  rewrite readRows_S.
  destruct hs as [|h' hs].
  - change (JS.join ("," ++ nl) (handlerRows [h])) with (handlerRow h).
    rewrite readRow_handlerRow by exact Hh. reflexivity.
  - change (JS.join ("," ++ nl) (handlerRows (h :: h' :: hs)))
      with (handlerRow h ++ ("," ++ nl) ++
            JS.join ("," ++ nl) (handlerRows (h' :: hs))).
    rewrite (append_assoc (handlerRow h)).
    rewrite readRow_handlerRow by exact Hh.
    rewrite (append_assoc ("," ++ nl)), expect_append.
    rewrite IH; [reflexivity|discriminate|simpl in *; lia|exact Hhs].
Qed.

Lemma length_handlerRow (h : NitroEventHandler) : 1 <= String.length (handlerRow h).
Proof. unfold Handlers.handlerRow. simpl. lia. Qed.

Lemma length_join_rows (hs : list NitroEventHandler) (tail : string) :
  length hs <= String.length (JS.join ("," ++ nl) (handlerRows hs) ++ tail).
Proof.
  induction hs as [|h [|h' hs] IH].
  - apply Nat.le_0_l.
  - change (JS.join ("," ++ nl) (handlerRows [h])) with (handlerRow h).
    rewrite length_append.
    pose proof (length_handlerRow h). change (length [h]) with 1. lia.
  - change (JS.join ("," ++ nl) (handlerRows (h :: h' :: hs)))
      with (handlerRow h ++ ("," ++ nl) ++
            JS.join ("," ++ nl) (handlerRows (h' :: hs))).
    rewrite !append_assoc, length_append.
    pose proof (length_handlerRow h).
    rewrite <- !append_assoc, (append_assoc ("," ++ nl)), length_append.
    change (length (h :: h' :: hs)) with (S (length (h' :: hs))).
    lia.
Qed.

Lemma parseArray_arrayLiteral (hs : list NitroEventHandler) :
  Forall readable hs ->
  parseArray (arrayLiteral (handlerRows hs)) = Some (map rowOf hs).
Proof.
  intros Hall. unfold parseArray, arrayLiteral.
  rewrite <- (append_assoc "export const handlers = [" nl), expect_append.
  destruct hs as [|h hs]; [reflexivity|].
  assert (Hno : expect (nl ++ "];")
                  (JS.join ("," ++ nl) (handlerRows (h :: hs)) ++ nl ++ "];") = None).
  { destruct hs; reflexivity. }
  rewrite Hno.
  apply readRows_join; [discriminate| |exact Hall].
  apply length_join_rows.
Qed.


(** C1. Every handler declared lazy gets its thunk and its row names the
    lazy binding, whether or not the same module is also imported eagerly:
    for the table of [/a] (eager) and [/b] (lazy) on one module [h1] the
    module has the import, the thunk, and a second row on the lazy binding. *)
Theorem lazy_thunk_emitted_beside_eager_import :
  let a := {| route := Some "/a"; handler := "h1"; lazy := Some false;
              middleware := None; method := None |} in
  let b := {| route := Some "/b"; handler := "h1"; lazy := Some true;
              middleware := None; method := None |} in
  let nitro :=
    {| options := {| handlers := [a; b]; serveStatic := false; renderer := None;
                     buildDir := "/app/.nitro"; tasks := []; node := true;
                     dev := false; nodeModulesDirs := [] |};
       scannedHandlers := [] |} in
  let hs := collectHandlers nitro in
  (forall table h,
     In h table -> isLazy h = true ->
     In (handler h) (lazyImports table) /\
     handlerRow h =
       "  { route: '" ++ orElse (route h) "" ++
       "', handler: " ++ getImportId (handler h) true ++
       ", lazy: true" ++
       ", middleware: " ++ showBool (toBool (middleware h)) ++
       ", method: " ++ stringifyOpt (method h) ++ " }") /\
  hs = [a; b] /\
  imports hs = ["h1"] /\
  lazyImports hs = ["h1"] /\
  handlerRows hs =
    [ "  { route: '/a', handler: " ++ getImportId "h1" false ++
      ", lazy: false, middleware: false, method: undefined }";
      "  { route: '/b', handler: " ++ getImportId "h1" true ++
      ", lazy: true, middleware: false, method: undefined }" ] /\
  Handlers.generateCode hash hs =
    "import " ++ getImportId "h1" false ++ " from 'h1';" ++ nl ++
    nl ++
    "const " ++ getImportId "h1" true ++ " = () => import('h1');" ++ nl ++
    nl ++
    "export const handlers = [" ++ nl ++
    "  { route: '/a', handler: " ++ getImportId "h1" false ++
    ", lazy: false, middleware: false, method: undefined }," ++ nl ++
    "  { route: '/b', handler: " ++ getImportId "h1" true ++
    ", lazy: true, middleware: false, method: undefined }" ++ nl ++
    "];".
Proof.
  intros a b nitro hs.
  assert (E : hs = [a; b]) by reflexivity.
  rewrite E. split; [|repeat split].
  { intros table h Hin Hlazy. split.
    - unfold lazyImports. apply In_unique. apply in_map.
      apply filter_In. auto.
    - unfold Handlers.handlerRow. unfold isLazy in Hlazy.
      unfold isLazy. now rewrite Hlazy. }
  rewrite generateCode_shape.
  unfold importsText, arrayLiteral, Handlers.handlerRows, Handlers.handlerRow,
    Handlers.importLine, Handlers.lazyImportLine, Handlers.getImportId.
  simpl. repeat (rewrite !append_assoc; simpl). reflexivity.
Qed.

End RoundTrip.





End HandlersSpec.

(* ================================================================== *)
(** * Facts about the further string primitives *)
(* ================================================================== *)

Module JSStringsFacts.
Import JS JSStrings MoreNotions JSFacts.

Lemma drop_append (a b : string) : drop (String.length a) (a ++ b) = b.
Proof. induction a as [|c a IH]; [destruct b; reflexivity|exact IH]. Qed.

Lemma startsWith_nil (s : string) : startsWith s "" = true.
Proof. apply startsWith_iff. now exists s. Qed.

Lemma startsWith_cons (c d : ascii) (s p : string) :
  startsWith (String c s) (String d p) = Ascii.eqb d c && startsWith s p.
Proof.
  unfold startsWith. simpl.
  destruct (ascii_dec d c) as [->|Hne].
  - now rewrite Ascii.eqb_refl.
  - apply Ascii.eqb_neq in Hne. now rewrite Hne.
Qed.

Lemma append_eq_cases (a b x y : string) :
  a ++ x = b ++ y ->
  (exists d, b = a ++ d /\ x = d ++ y) \/
  (exists d, d <> "" /\ a = b ++ d /\ y = d ++ x).
Proof.
  revert b. induction a as [|c a IH]; intros b E.
  - left. exists b. auto.
  - destruct b as [|c' b].
    + right. exists (String c a). repeat split; [discriminate|auto].
    + simpl in E. injection E as -> E.
      destruct (IH b E) as [(d & -> & ->)|(d & Hd & -> & ->)].
      * left. exists d. auto.
      * right. exists d. auto.
Qed.

Lemma includes_cons (c : ascii) (s sub : string) :
  includes (String c s) sub = startsWith (String c s) sub || includes s sub.
Proof. reflexivity. Qed.

Lemma includes_nil (sub : string) : includes "" sub = startsWith "" sub.
Proof. unfold includes. apply orb_false_r. Qed.

Lemma includes_iff (s sub : string) :
  includes s sub = true <-> exists a b, s = a ++ sub ++ b.
Proof.
  induction s as [|c s IH].
  - rewrite includes_nil. split.
    + intros H. apply startsWith_iff in H as [r Hr]. exists "", r. exact Hr.
    + intros (a & b & E). apply startsWith_iff.
      destruct a; [now exists b|discriminate].
  - rewrite includes_cons, orb_true_iff. split.
    + intros [H|H].
      * apply startsWith_iff in H as [r Hr]. exists "", r. exact Hr.
      * apply IH in H as (a & b & ->). exists (String c a), b. reflexivity.
    + intros (a & b & E). destruct a as [|c' a].
      * left. apply startsWith_iff. now exists b.
      * right. apply IH. simpl in E. injection E as _ ->. now exists a, b.
Qed.

(** [cut] finds the first occurrence. *)
Lemma cut_nil (sep : string) :
  cut sep "" = if startsWith "" sep then Some ("", drop (String.length sep) "") else None.
Proof. reflexivity. Qed.

Lemma cut_cons (sep : string) (c : ascii) (s : string) :
  cut sep (String c s) =
    if startsWith (String c s) sep
    then Some ("", drop (String.length sep) (String c s))
    else match cut sep s with
         | Some (before, after) => Some (String c before, after)
         | None => None
         end.
Proof. reflexivity. Qed.

Lemma cut_Some (sep s before after : string) :
  cut sep s = Some (before, after) ->
  s = before ++ sep ++ after /\
  forall a1 a2, before = a1 ++ a2 -> a2 <> "" ->
                startsWith (a2 ++ sep ++ after) sep = false.
Proof.
  assert (Hhere : forall t, startsWith t sep = true ->
            t = "" ++ sep ++ drop (String.length sep) t /\
            forall a1 a2, "" = a1 ++ a2 -> a2 <> "" ->
              startsWith (a2 ++ sep ++ drop (String.length sep) t) sep = false).
  { intros t E. apply startsWith_iff in E as [r Hr]. split.
    - rewrite Hr at 2. rewrite drop_append. exact Hr.
    - intros a1 a2 Ha. symmetry in Ha. apply append_eq_nil in Ha as [_ ->].
      contradiction. }
  revert before. induction s as [|c s IH]; intros before.
  - rewrite cut_nil. destruct (startsWith "" sep) eqn:E; [|discriminate].
    intros [= <- <-]. now apply Hhere.
  - rewrite cut_cons. destruct (startsWith (String c s) sep) eqn:E.
    + intros [= <- <-]. now apply Hhere.
    + destruct (cut sep s) as [[b a]|] eqn:Ec; [|discriminate].
      intros [= <- <-]. destruct (IH b eq_refl) as [Hs Hfirst].
      split; [simpl; now rewrite <- Hs|].
      intros a1 a2 Ha Hne. destruct a1 as [|c1 a1].
      * simpl in Ha. subst a2. simpl. rewrite <- Hs. exact E.
      * simpl in Ha. injection Ha as _ Ha. now apply (Hfirst a1 a2).
Qed.

Lemma cut_None (sep s : string) : cut sep s = None <-> includes s sep = false.
Proof.
  induction s as [|c s IH].
  - rewrite cut_nil, includes_nil.
    destruct (startsWith "" sep); split; congruence.
  - rewrite cut_cons, includes_cons.
    destruct (startsWith (String c s) sep); simpl; [split; congruence|].
    rewrite <- IH. destruct (cut sep s) as [[b a]|]; split; congruence.
Qed.

Lemma cut_here (sep post : string) : cut sep (sep ++ post) = Some ("", post).
Proof.
  destruct (sep ++ post) as [|d r] eqn:E.
  - apply append_eq_nil in E as [-> ->]. reflexivity.
  - rewrite cut_cons, <- E, startsWith_append, drop_append. reflexivity.
Qed.

Lemma cut_first (sep pre post : string) :
  (forall a1 a2, pre = a1 ++ a2 -> a2 <> "" ->
                 startsWith (a2 ++ sep ++ post) sep = false) ->
  cut sep (pre ++ sep ++ post) = Some (pre, post).
Proof.
  induction pre as [|c pre IH]; intros Hfirst.
  - exact (cut_here sep post).
  - change (String c pre ++ sep ++ post) with (String c (pre ++ sep ++ post)).
    rewrite cut_cons.
    change (String c (pre ++ sep ++ post)) with (String c pre ++ sep ++ post).
    rewrite (Hfirst "" (String c pre) eq_refl) by discriminate.
    rewrite IH; [reflexivity|].
    intros a1 a2 -> Hne. now apply (Hfirst (String c a1) a2).
Qed.

Lemma splitFuel_nonempty (fuel : nat) (sep s : string) : splitFuel fuel sep s <> [].
Proof.
  destruct fuel; simpl; [discriminate|].
  destruct (cut sep s) as [[b a]|]; discriminate.
Qed.

Lemma pop_cons (x : string) (l : list string) : l <> [] -> pop (x :: l) = pop l.
Proof. destruct l; [contradiction|reflexivity]. Qed.

Lemma splitFuel_none (fuel : nat) (sep s : string) :
  includes s sep = false -> splitFuel fuel sep s = [s].
Proof.
  intros H. apply cut_None in H. destruct fuel; simpl; [reflexivity|].
  now rewrite H.
Qed.

(** The last piece of a split is the text after the last occurrence. *)
Lemma pop_splitFuel_last (sep : string) :
  sep <> "" -> borderFree sep ->
  forall fuel pre piece,
    String.length (pre ++ sep ++ piece) <= fuel ->
    includes piece sep = false ->
    pop (splitFuel fuel sep (pre ++ sep ++ piece)) = Some piece.
Proof.
  intros Hsep Hborder.
  induction fuel as [|fuel IH]; intros pre piece Hlen Hpiece.
  - rewrite !length_append in Hlen. destruct sep; [contradiction|simpl in Hlen; lia].
  - simpl. destruct (cut sep (pre ++ sep ++ piece)) as [[a b]|] eqn:Ec.
    + rewrite pop_cons by apply splitFuel_nonempty.
      destruct (cut_Some _ _ _ _ Ec) as [Hs Hfirst].
      destruct (append_eq_cases _ _ _ _ Hs) as [(d & Ha & Hx)|(d & Hd & Hp & Hy)].
      * (* the first occurrence would start behind [pre] *)
        destruct d as [|c d].
        -- rewrite append_nil_r in Ha. subst a. simpl in Hx.
           assert (b = piece).
           { clear - Hx. induction sep; simpl in Hx; [auto|].
             injection Hx as Hx. auto. }
           subst b. now rewrite splitFuel_none.
        -- exfalso.
           pose proof (Hfirst pre (String c d) Ha ltac:(discriminate)) as Hno.
           rewrite <- Hx, startsWith_append in Hno. discriminate.
      * (* it starts inside [pre] *)
        subst pre.
        destruct (append_eq_cases _ _ _ _ Hy) as [(e & He & Hb)|(e & Hne & He & Hb)].
        -- (* and ends inside [pre] too *)
           subst d b. apply IH; [|exact Hpiece].
           rewrite !length_append in *. destruct sep; [contradiction|].
           simpl in *. lia.
        -- (* it overlaps the occurrence behind [pre] *)
           exfalso.
           assert (Hy' : startsWith sep e = true).
           { apply startsWith_iff.
             destruct (append_eq_cases _ _ _ _ Hb) as [(f & Hf & _)|(f & _ & Hf & _)].
             - (* [e] would be longer than [sep] *)
               exfalso. subst e. apply (f_equal String.length) in He.
               rewrite !length_append in He.
               destruct d; [contradiction|]. simpl in He. lia.
             - exists f. exact Hf. }
           rewrite (Hborder d e He Hd Hne) in Hy'. discriminate.
    + apply cut_None in Ec.
      assert (Hin : includes (pre ++ sep ++ piece) sep = true)
        by (apply includes_iff; eauto).
      congruence.
Qed.

Lemma pop_split_last (sep pre piece : string) :
  sep <> "" -> borderFree sep ->
  includes piece sep = false ->
  pop (split sep (pre ++ sep ++ piece)) = Some piece.
Proof.
  intros Hsep Hborder Hpiece. unfold split.
  now apply pop_splitFuel_last.
Qed.

Lemma pop_split_none (sep s : string) :
  includes s sep = false -> pop (split sep s) = Some s.
Proof.
  intros H. unfold split. now rewrite splitFuel_none.
Qed.

Lemma borderFree_node_modules : borderFree "node_modules/".
Proof.
  intros d y E Hd Hy.
  do 14 (destruct d as [|? d];
         [simpl in E; subst y; try contradiction; reflexivity|];
         simpl in E; try discriminate E; injection E as <- E).
Qed.

Lemma removeDashes_no_dash (s : string) : includes (removeDashes s) "-" = false.
Proof.
  induction s as [|c s IH]; [reflexivity|].
  simpl removeDashes. destruct (Ascii.eqb c "-") eqn:E; [exact IH|].
  rewrite includes_cons, IH, startsWith_cons.
  rewrite Ascii.eqb_sym, E. reflexivity.
Qed.

Lemma endsWith_append (a b : string) : endsWith (a ++ b) b = true.
Proof.
  induction a as [|c a IH]; simpl.
  - destruct b; simpl; [reflexivity|].
    now rewrite Ascii.eqb_refl, String.eqb_refl.
  - rewrite IH. apply orb_true_r.
Qed.

End JSStringsFacts.

(* ================================================================== *)
(** * Output options and generated modules of the rollup configuration *)
(* ================================================================== *)

Module RollupOutputSpec.
Import JS JSStrings Types RollupConfig RollupOutput RowReader Notions MoreNotions.
Import JSFacts JSStringsFacts.

(** ** Side effects *)

(** X1. [moduleSideEffects] tests the normalized id and the text behind its
    last [node_modules/]: an id that ends there (or is empty) has no side
    effects, even inside the runtime directory; otherwise the runtime
    directory or a listed prefix at the start of either text decides. *)
Theorem side_effects_look_behind_last_node_modules
  (host : Host) (normalize : string -> string) (listed : list string) (id : string) :
  (forall pre rest,
     normalize id = pre ++ "node_modules/" ++ rest ->
     includes rest "node_modules/" = false ->
     moduleSideEffects host normalize listed id =
       negb (rest =? "") &&
       (startsWith (normalize id) (runtimeDir host) ||
        startsWith rest (runtimeDir host) ||
        existsb (fun m => startsWith (normalize id) m || startsWith rest m) listed)) /\
  (includes (normalize id) "node_modules/" = false ->
   moduleSideEffects host normalize listed id =
     negb (normalize id =? "") &&
     (startsWith (normalize id) (runtimeDir host) ||
      existsb (fun m => startsWith (normalize id) m) listed)).
Proof.
  split.
  - intros pre rest Hn Hrest. unfold moduleSideEffects.
    rewrite Hn, pop_split_last;
      [|discriminate|exact borderFree_node_modules|exact Hrest].
    destruct (rest =? ""); [reflexivity|]. simpl.
    destruct (startsWith (pre ++ "node_modules/" ++ rest) (runtimeDir host) ||
              startsWith rest (runtimeDir host)); reflexivity.
  - intros Hno. unfold moduleSideEffects.
    rewrite pop_split_none by exact Hno.
    destruct (normalize id =? ""); [reflexivity|]. simpl.
    rewrite orb_diag.
    destruct (startsWith (normalize id) (runtimeDir host)); [reflexivity|].
    simpl.
    induction listed as [|m listed IH]; [reflexivity|].
    simpl. now rewrite orb_diag, IH.
Qed.

(** A package nested under two [node_modules] is matched by its bare name;
    the directory itself is not. *)
Lemma nested_package_side_effects :
  moduleSideEffects Scenarios.posixHost keep ["unenv/polyfill/"]
    "/app/node_modules/.pnpm/x/node_modules/unenv/polyfill/process.mjs" = true /\
  moduleSideEffects Scenarios.posixHost keep ["unenv/polyfill/"]
    "/nitro/dist/runtime/node_modules/" = false.
Proof.
  pose proof (side_effects_look_behind_last_node_modules
                Scenarios.posixHost keep ["unenv/polyfill/"]) as H.
  split.
  - destruct (H "/app/node_modules/.pnpm/x/node_modules/unenv/polyfill/process.mjs")
      as [Hlast _].
    exact (Hlast "/app/node_modules/.pnpm/x/" "unenv/polyfill/process.mjs"
             eq_refl eq_refl).
  - destruct (H "/nitro/dist/runtime/node_modules/") as [Hlast _].
    exact (Hlast "/nitro/dist/runtime/" "" eq_refl eq_refl).
Defined.

(** ** Chunk groups and chunk file names *)

Section Chunks.

Variable host : Host.
Variable nitro : Nitro.
Variable normalize : string -> string.

Local Abbreviation getChunkName := (getChunkName host nitro).
Local Abbreviation getChunkGroup := (getChunkGroup host).
Local Abbreviation chunkFileNames := (chunkFileNames host nitro normalize).

(** X2. The group that [manualChunks] gets from [getChunkGroup] is [nitro] or none, and a module is
    named into [chunks/nitro] exactly when its group is [nitro] and it lies
    under neither the build directory nor the server build directory: there
    the file name says [build] or [app] although the group says [nitro]. *)
Theorem nitro_group_and_nitro_chunk_name (id : string) :
  (getChunkGroup id = None \/ getChunkGroup id = Some "nitro") /\
  (getChunkName id = label "nitro" <->
   getChunkGroup id = Some "nitro" /\
   startsWith id (buildDir (options nitro)) = false /\
   startsWith id (buildServerDir host nitro) = false).
Proof.
  unfold RollupOutput.getChunkGroup, RollupConfig.getChunkName,
    chunkNamePrefixes, knownPrefix.
  split.
  - destruct (startsWith id (runtimeDir host) || startsWith id (presetsDir host)); auto.
  - destruct (startsWith id (buildDir (options nitro)));
      [split; [discriminate|intros (_ & H & _); discriminate]|].
    destruct (startsWith id (buildServerDir host nitro));
      [split; [discriminate|intros (_ & _ & H); discriminate]|].
    destruct (startsWith id (runtimeDir host)); [simpl; now split|].
    destruct (startsWith id (presetsDir host)); [simpl; now split|].
    simpl.
    split; [|intros (H & _); discriminate].
    repeat match goal with
           | |- context [startsWith id ?d] =>
               destruct (startsWith id d); [discriminate|]
           end.
    destruct (match routeHandler nitro id with
              | Some h => if truthy (route h) then route h else None
              | None => None
              end) as [r|]; [discriminate|].
    destruct (taskHandler nitro id); discriminate.
Qed.

Lemma atLast_app (ids : list string) (m : string) : atLast (ids ++ [m]) = Some m.
Proof.
  unfold atLast. rewrite length_app. simpl.
  replace (length ids + 1 - 1) with (length ids + 0) by lia.
  now rewrite nth_error_app2, Nat.add_0_r, Nat.sub_diag by lia.
Qed.


End Chunks.

(** ** The polyfills module *)

Lemma join_cons_starts (sep x : string) (xs : list string) :
  exists r, JS.join sep (x :: xs) = x ++ r.
Proof.
  destruct xs as [|y ys].
  - exists "". simpl. now rewrite append_nil_r.
  - eexists. reflexivity.
Qed.

(** X4. The polyfills module is the comment [/* No polyfills */] exactly
    when there is no polyfill; otherwise it is the import lines, joined,
    beginning with the import of the first polyfill. It is never empty. *)
Theorem polyfills_module_is_never_empty (polyfill : list string) :
  (polyfillsModule polyfill = "/* No polyfills */" <-> polyfill = []) /\
  (forall p rest, polyfill = p :: rest ->
     polyfillsModule polyfill =
       JS.join nl (map (fun p => "import '" ++ p ++ "';") polyfill) /\
     startsWith (polyfillsModule polyfill) ("import '" ++ p ++ "';") = true) /\
  polyfillsModule polyfill <> "".
Proof.
  assert (Hcons : forall p rest,
            polyfillsModule (p :: rest) =
              JS.join nl (map (fun p => "import '" ++ p ++ "';") (p :: rest)) /\
            startsWith (polyfillsModule (p :: rest)) ("import '" ++ p ++ "';") = true).
  { intros p rest.
    assert (E : polyfillsModule (p :: rest) =
                JS.join nl (map (fun p => "import '" ++ p ++ "';") (p :: rest)))
      by (destruct rest; reflexivity).
    split; [exact E|]. rewrite E.
    set (F := fun p : string => "import '" ++ p ++ "';").
    change (map F (p :: rest)) with (F p :: map F rest).
    destruct (join_cons_starts nl (F p) (map F rest)) as [r Hr].
    rewrite Hr. apply startsWith_append. }
  split; [|split].
  - split.
    + destruct polyfill as [|p rest]; [reflexivity|].
      destruct (Hcons p rest) as [_ Hs]. intros E. rewrite E in Hs. discriminate.
    + now intros ->.
  - intros p rest ->. apply Hcons.
  - destruct polyfill as [|p rest]; [discriminate|].
    destruct (Hcons p rest) as [_ Hs]. intros E. rewrite E in Hs. discriminate.
Qed.

(** ** The plugins module *)

Lemma allIdentPart_removeDashes (s : string) :
  allBase64Url s = true -> allIdentPart (removeDashes s) = true.
Proof.
  induction s as [|c s IH]; [reflexivity|].
  simpl. intros H. apply andb_true_iff in H as [Hc Hs].
  destruct (Ascii.eqb c "-") eqn:E; [auto|].
  simpl. rewrite orb_false_r in Hc. unfold isIdentPart.
  now rewrite Hc, IH.
Qed.

Lemma unique_idempotent_filter (x : string) (l : list string) :
  ~ In x l -> filter (fun y => negb (y =? x)) l = l.
Proof.
  induction l as [|y l IH]; [reflexivity|].
  intros Hn. simpl.
  destruct (String.eqb_spec y x) as [->|Hne]; [elim Hn; now left|].
  simpl. rewrite IH; [reflexivity|]. intros H. apply Hn. now right.
Qed.

Lemma NoDup_unique (l : list string) : NoDup (Handlers.unique l).
Proof.
  induction l as [|x l IH]; [constructor|].
  simpl. constructor.
  - rewrite filter_In. intros [_ H]. now rewrite String.eqb_refl in H.
  - now apply NoDup_filter.
Qed.

Lemma unique_NoDup (l : list string) : NoDup l -> Handlers.unique l = l.
Proof.
  induction 1 as [|x l Hx _ IH]; [reflexivity|].
  simpl. rewrite IH. now rewrite unique_idempotent_filter.
Qed.

Section PluginsModule.

Variable hash : string -> string.

Local Abbreviation pluginId := (pluginId hash).
Local Abbreviation pluginsModule := (pluginsModule hash).


End PluginsModule.


(** ** The file name of the bundle statistics *)

Lemma cut_behind_plain_text (c : ascii) (pattern pre post : string) :
  noChar c pre = true ->
  cut (String c pattern) (pre ++ String c pattern ++ post) = Some (pre, post).
Proof.
  intros Hpre. apply cut_first.
  intros a1 a2 -> Hne. destruct a2 as [|d a2]; [contradiction|].
  assert (Hd : Ascii.eqb d c = false).
  { clear - Hpre. induction a1 as [|e a1 IH]; simpl in Hpre.
    - apply andb_true_iff in Hpre as [H _]. now apply negb_true_iff in H.
    - apply andb_true_iff in Hpre as [_ H]. auto. }
  change (String d a2 ++ String c pattern ++ post)
    with (String d (a2 ++ String c pattern ++ post)).
  rewrite startsWith_cons, Ascii.eqb_sym, Hd. reflexivity.
Qed.

(** X6. The statistics file is [stats.html] when no name is configured; a
    configured name without the placeholder is kept; and only the first
    [{name}] becomes [nitro]: what follows it is kept as it is, further
    placeholders included. *)
Theorem analyze_filename_replaces_first_placeholder :
  analyzeFilename None = "stats.html" /\
  analyzeFilename (Some "") = "stats.html" /\
  (forall f, f <> "" -> includes f "{name}" = false -> analyzeFilename (Some f) = f) /\
  (forall pre post,
     noChar "{" pre = true ->
     analyzeFilename (Some (pre ++ "{name}" ++ post)) = pre ++ "nitro" ++ post).
Proof.
  split; [reflexivity|split; [reflexivity|split]].
  - intros f Hne Hno. unfold analyzeFilename, replaceFirst.
    assert (E : orElse (Some f) "stats.html" = f).
    { simpl. destruct (f =? "") eqn:E; [apply String.eqb_eq in E; contradiction|].
      reflexivity. }
    rewrite E. apply cut_None in Hno. now rewrite Hno.
  - intros pre post Hpre. unfold analyzeFilename, replaceFirst.
    assert (E : orElse (Some (pre ++ "{name}" ++ post)) "stats.html" =
                pre ++ "{name}" ++ post).
    { simpl. destruct pre; reflexivity. }
    rewrite E.
    now rewrite (cut_behind_plain_text "{" "name}" pre post Hpre).
Qed.

(** [stats-{name}-{name}.html] keeps its second placeholder. *)
Lemma second_placeholder_stays :
  analyzeFilename (Some "stats-{name}-{name}.html") = "stats-nitro-{name}.html".
Proof.
  destruct analyze_filename_replaces_first_placeholder as (_ & _ & _ & H).
  exact (H "stats-" "-{name}.html" eq_refl).
Defined.

End RollupOutputSpec.

(* ================================================================== *)
(** * More on the handler aggregation compiler *)
(* ================================================================== *)

Module HandlersMore.
Import JS JSStrings Types Handlers RowReader Notions MoreNotions.
Import JSFacts JSStringsFacts HandlersSpec RollupOutputSpec.

(** ** [unique] *)

Lemma filter_all {A} (f : A -> bool) (l : list A) :
  (forall x, In x l -> f x = true) -> filter f l = l.
Proof.
  induction l as [|x l IH]; intros H; [reflexivity|].
  simpl. rewrite (H x) by now left.
  rewrite IH; [reflexivity|]. intros y Hy. apply H. now right.
Qed.

Lemma filter_twice {A} (f g : A -> bool) (l : list A) :
  filter f (filter g l) = filter (fun x => g x && f x) l.
Proof.
  induction l as [|x l IH]; [reflexivity|].
  simpl. destruct (g x); simpl; [destruct (f x)|]; now rewrite IH.
Qed.

(** X7. [unique] keeps exactly the members of the array, each once, in the
    order of their first occurrence: an array without repetition is
    unchanged, and the distinct members of a concatenation are those of its
    first part followed by the new ones of the second. *)
Theorem unique_keeps_first_occurrences (l : list string) :
  NoDup (unique l) /\
  (forall x, In x (unique l) <-> In x l) /\
  (NoDup l -> unique l = l) /\
  (forall l2,
     unique (l ++ l2) =
       (unique l ++ filter (fun y => negb (existsb (String.eqb y) l)) (unique l2))%list).
Proof.
  split; [apply NoDup_unique|].
  split; [intros x; apply In_unique|].
  split; [apply unique_NoDup|].
  intros l2. induction l as [|x l IH].
  - simpl. symmetry. now apply filter_all.
  - simpl. rewrite IH, filter_app, filter_twice. do 2 f_equal.
    apply filter_ext. intros y.
    rewrite negb_orb. apply andb_comm.
Qed.

(** ** Imports and rows *)

Section Declared.

Variable hash : string -> string.

Local Abbreviation getImportId := (getImportId hash).
Local Abbreviation importLine := (importLine hash).
Local Abbreviation lazyImportLine := (lazyImportLine hash).
Local Abbreviation generateCode := (generateCode hash).


(** X9. The generated module has no white space around it: it ends with
    the [];] of the array, begins with [import ] when some handler is not
    lazy and with [const ] when all handlers are lazy, and for an empty table
    it is the empty array literal alone. *)
Theorem generated_module_is_trimmed (hs : list NitroEventHandler) :
  endsWith (generateCode hs) "];" = true /\
  (hs = [] -> generateCode hs = "export const handlers = [" ++ nl ++ nl ++ "];") /\
  (forall h, In h hs -> isLazy h = false ->
             startsWith (generateCode hs) "import " = true) /\
  (hs <> [] -> (forall h, In h hs -> isLazy h = true) ->
   startsWith (generateCode hs) "const " = true).
Proof.
  split; [|split; [|split]].
  - rewrite generateCode_shape. unfold arrayLiteral.
    rewrite <- !append_assoc. apply endsWith_append.
  - now intros ->.
  - intros h Hin Hl. rewrite generateCode_shape. unfold importsText.
    assert (Hi : In (handler h) (imports hs)).
    { unfold imports. apply In_unique, in_map, filter_In.
      split; [exact Hin|]. now rewrite Hl. }
    destruct (imports hs) as [|x xs]; [contradiction|].
    destruct (join_cons_starts nl (Handlers.importLine hash x)
                (map (Handlers.importLine hash) xs)) as [r Hr].
    change (map (Handlers.importLine hash) (x :: xs))
      with (Handlers.importLine hash x :: map (Handlers.importLine hash) xs).
    rewrite Hr. unfold Handlers.importLine at 1.
    rewrite !append_assoc.
    apply startsWith_iff. eexists. reflexivity.
  - intros Hne Hall. rewrite generateCode_shape. unfold importsText.
    assert (Hi : imports hs = []).
    { unfold imports.
      replace (filter (fun h => negb (isLazy h)) hs) with (@nil NitroEventHandler);
        [reflexivity|].
      symmetry. clear Hne. induction hs as [|h hs' IH]; [reflexivity|].
      simpl. rewrite (Hall h) by now left. simpl.
      apply IH. intros h' Hh'. apply Hall. now right. }
    assert (Hl : lazyImports hs <> []).
    { destruct hs as [|h hs']; [contradiction|].
      intros E. assert (Hin : In (handler h) (lazyImports (h :: hs'))).
      { unfold lazyImports. apply In_unique, in_map, filter_In.
        split; [now left|]. apply Hall. now left. }
      now rewrite E in Hin. }
    rewrite Hi. destruct (lazyImports hs) as [|x xs]; [contradiction|].
    destruct (join_cons_starts nl (Handlers.lazyImportLine hash x)
                (map (Handlers.lazyImportLine hash) xs)) as [r Hr].
    change (map (Handlers.lazyImportLine hash) (x :: xs))
      with (Handlers.lazyImportLine hash x :: map (Handlers.lazyImportLine hash) xs).
    rewrite Hr. unfold Handlers.lazyImportLine at 1.
    rewrite !append_assoc.
    apply startsWith_iff. eexists. reflexivity.
Qed.

(** X10. The token of a path is the prefix and at most six characters of
    the hash, fewer when the hash is shorter; it is a binding name exactly
    when these characters are identifier characters, so a dash among them
    gives a name that is none. *)
Theorem import_id_keeps_hash_characters (p : string) (v : bool) :
  String.length (getImportId p v) =
    (if v then 6 else 1) + Nat.min 6 (String.length (hash p)) /\
  validBinding (getImportId p v) = allIdentPart (slice0 6 (hash p)) /\
  (forall a b, slice0 6 (hash p) = a ++ "-" ++ b ->
               validBinding (getImportId p v) = false).
Proof.
  assert (Hlen : forall n s, String.length (slice0 n s) = Nat.min n (String.length s)).
  { unfold slice0. induction n as [|n IH]; intros s.
    - destruct s; reflexivity.
    - destruct s as [|c s]; simpl; [reflexivity|]. now rewrite IH. }
  assert (Hv : validBinding (getImportId p v) = allIdentPart (slice0 6 (hash p)))
    by (unfold Handlers.getImportId; destruct v; reflexivity).
  split; [|split; [exact Hv|]].
  - unfold Handlers.getImportId. rewrite length_append, Hlen.
    destruct v; reflexivity.
  - intros a b E. rewrite Hv, E. clear.
    induction a as [|c a IH]; [reflexivity|].
    change (allIdentPart (String c a ++ "-" ++ b))
      with (isIdentPart c && allIdentPart (a ++ "-" ++ b)).
    rewrite IH. apply andb_false_r.
Qed.

End Declared.

(** A hash that begins with [a-b_] gives the token [_a-b_2f], no binding name. *)
Lemma dashed_hash_import_id :
  getImportId dashedHash "/app/routes/index.ts" false = "_a-b_2f" /\
  validBinding (getImportId dashedHash "/app/routes/index.ts" false) = false.
Proof.
  destruct (import_id_keeps_hash_characters dashedHash "/app/routes/index.ts" false)
    as (_ & _ & H).
  split; [reflexivity|].
  exact (H "a" "b_2f" eq_refl).
Defined.

(** ** Method inference *)

Lemma token_nonempty (m : string) : In m methodTokens -> m <> "".
Proof.
  unfold methodTokens. simpl. intuition (subst; discriminate).
Qed.

(** X11. Inferring twice is inferring once, and an inferred method is one
    of the nine tokens. *)
Theorem inferMethod_is_idempotent (h : NitroEventHandler) :
  inferMethod (inferMethod h) = inferMethod h /\
  (forall m, truthy (method h) = false -> method (inferMethod h) = Some m ->
             In m methodTokens).
Proof.
  assert (Htok : forall p m, matchMethod p = Some m -> In m methodTokens).
  { intros p m H. apply matchMethod_Some in H as (n & (Hin & _) & _). exact Hin. }
  split.
  - unfold inferMethod. destruct (truthy (method h)) eqn:E; [now rewrite E|].
    simpl. destruct (matchMethod (handler h)) as [m|] eqn:Em; [|reflexivity].
    apply Htok, token_nonempty in Em. simpl.
    destruct (m =? "") eqn:E'; [apply String.eqb_eq in E'; contradiction|].
    reflexivity.
  - intros m E. unfold inferMethod. rewrite E. simpl. apply Htok.
Qed.

Lemma noChar_app (c : ascii) (a b : string) :
  noChar c (a ++ b) = noChar c a && noChar c b.
Proof.
  induction a as [|d a IH]; [reflexivity|].
  simpl. rewrite IH. apply andb_assoc.
Qed.

Lemma noSlash_word (w : string) : allWord w = true -> noChar "/" w = true.
Proof.
  induction w as [|c w IH]; [reflexivity|].
  simpl. intros H. apply andb_true_iff in H as [Hc Hw].
  rewrite IH by exact Hw. rewrite andb_true_r.
  destruct (Ascii.eqb_spec c "/") as [->|]; [discriminate Hc|reflexivity].
Qed.

Lemma noSlash_extensions (e : string) : Extensions e -> noChar "/" e = true.
Proof.
  induction 1 as [|w rest _ Hw _ IH]; [reflexivity|].
  change ("." ++ w ++ rest) with (String "." (w ++ rest)).
  simpl. now rewrite noChar_app, noSlash_word, IH.
Qed.

Lemma noSlash_token (m : string) : In m methodTokens -> noChar "/" m = true.
Proof.
  unfold methodTokens. simpl. intuition (subst; reflexivity).
Qed.

Lemma matchMethodHere_before_slash (x y : string) :
  matchMethodHere (x ++ "/" ++ y) = None.
Proof.
  destruct (matchMethodHere (x ++ "/" ++ y)) as [m|] eqn:E; [|reflexivity].
  apply matchMethodHere_spec in E as (Hin & pre & exts & Hlen & Hp & He).
  apply (f_equal (noChar "/")) in Hp.
  rewrite !noChar_app in Hp.
  rewrite (noSlash_token m Hin), (noSlash_extensions exts He) in Hp.
  apply length_zero_empty in Hlen. subst pre.
  simpl in Hp. rewrite !andb_false_r in Hp. discriminate.
Qed.

(** X12. The method is read off the file name alone: what stands before the
    last [/] of the handler path does not count. *)
Theorem method_is_read_off_the_file_name (dir file : string) :
  matchMethod (dir ++ "/" ++ file) = matchMethod file.
Proof.
  induction dir as [|c dir IH].
  - change ("" ++ "/" ++ file) with (String "/" file).
    change (matchMethod (String "/" file))
      with (match matchMethodHere (String "/" file) with
            | Some m => Some m
            | None => matchMethod file
            end).
    pose proof (matchMethodHere_before_slash "" file) as H.
    change ("" ++ "/" ++ file) with (String "/" file) in H.
    now rewrite H.
  - change (String c dir ++ "/" ++ file) with (String c (dir ++ "/" ++ file)).
    change (matchMethod (String c (dir ++ "/" ++ file)))
      with (match matchMethodHere (String c (dir ++ "/" ++ file)) with
            | Some m => Some m
            | None => matchMethod (dir ++ "/" ++ file)
            end).
    pose proof (matchMethodHere_before_slash (String c dir) file) as H.
    change (String c dir ++ "/" ++ file) with (String c (dir ++ "/" ++ file)) in H.
    now rewrite H, IH.
Qed.

(** ** The debug dump over successive builds *)

Section Rebuilds.

Variable hash : string -> string.
Variable dumpHandler : list NitroEventHandler -> string.

Local Abbreviation generate := (generate hash dumpHandler).
Local Abbreviation generateAll := (generateAll hash dumpHandler).

Lemma nextDump_debug (nitro : Nitro) (lastDump : string) :
  nextDump (generate true nitro lastDump) = dumpHandler (collectHandlers nitro).
Proof.
  unfold Handlers.generate.
  destruct (dumpHandler (collectHandlers nitro) =? lastDump) eqn:E; [|reflexivity].
  apply String.eqb_eq in E. now rewrite E.
Qed.

Lemma logged_unchanged (nitro : Nitro) :
  logged (generate true nitro (dumpHandler (collectHandlers nitro))) = [].
Proof. unfold Handlers.generate. now rewrite String.eqb_refl. Qed.

(** X13. However often the same table is built in a row, only the first of
    these builds can print the dump; outside debug mode no build prints. *)
Theorem unchanged_table_is_dumped_once (nitro : Nitro) (lastDump : string) (k : nat) :
  map logged (generateAll true (repeat nitro (S k)) lastDump) =
    logged (generate true nitro lastDump) :: repeat [] k /\
  (forall builds,
     map logged (generateAll false builds lastDump) = repeat [] (length builds)).
Proof.
  split.
  - simpl. f_equal. rewrite nextDump_debug.
    induction k as [|k IH]; [reflexivity|].
    simpl. rewrite logged_unchanged, nextDump_debug. now rewrite IH.
  - intros builds. revert lastDump.
    induction builds as [|b builds IH]; intros lastDump; [reflexivity|].
    simpl. now rewrite IH.
Qed.

End Rebuilds.

End HandlersMore.

(* ================================================================== *)
(** * More on chunk names and on the [no-externals] plugin *)
(* ================================================================== *)

Module RollupConfigMore.
Import JS JSStrings Types RollupConfig Notions MoreNotions.
Import JSFacts JSStringsFacts ChunkSpec NoExternalsSpec.

(** ** Route paths *)

Lemma length_replaceParams (b : bool) (s : string) :
  String.length (replaceParams b s) = String.length s.
Proof.
  revert b. induction s as [|c s IH]; intros b; [reflexivity|].
  simpl. destruct (isSlash c); [simpl; now rewrite IH|].
  destruct b; [simpl; now rewrite IH|].
  destruct (Ascii.eqb c ":" &&
            match s with
            | "" => false
            | String d _ => negb (isSlash d)
            end); simpl; now rewrite IH.
Qed.

Lemma replaceParams_cons (b : bool) (c : ascii) (s : string) :
  exists c' b', replaceParams b (String c s) = String c' (replaceParams b' s) /\
                isSlash c' = isSlash c.
Proof.
  simpl. destruct (isSlash c) eqn:Ec; [eauto|].
  destruct b; [eauto|].
  destruct (Ascii.eqb c ":" &&
            match s with
            | "" => false
            | String d _ => negb (isSlash d)
            end); eauto.
Qed.

Lemma replaceParams_trailing_slash (b : bool) (x : string) :
  exists x', replaceParams b (x ++ "/") = x' ++ "/".
Proof.
  revert b. induction x as [|c x IH]; intros b.
  - exists "". reflexivity.
  - destruct (replaceParams_cons b c (x ++ "/")) as (c' & b' & E & _).
    destruct (IH b') as [x' Hx'].
    exists (String c' x'). simpl "++". rewrite E, Hx'. reflexivity.
Qed.

Lemma noSlash_replaceParams (b : bool) (s : string) :
  noSlash (replaceParams b s) = noSlash s.
Proof.
  revert b. induction s as [|c s IH]; intros b; [reflexivity|].
  destruct (replaceParams_cons b c s) as (c' & b' & E & Hc).
  rewrite E. simpl. now rewrite Hc, IH.
Qed.

Lemma stripLastSegment_trailing_slash (y : string) :
  stripLastSegment (y ++ "/") = y ++ "/".
Proof.
  induction y as [|c y IH]; [reflexivity|].
  change (stripLastSegment (String c y ++ "/"))
    with (if isSlash c && negb (y ++ "/" =? "") && noSlash (y ++ "/")
          then "" else String c (stripLastSegment (y ++ "/"))).
  rewrite (noSlash_append_slash y ""), andb_false_r, IH. reflexivity.
Qed.

Lemma stripLastSegment_noSlash (s : string) :
  noSlash s = true -> stripLastSegment s = s.
Proof.
  induction s as [|c s IH]; [reflexivity|].
  simpl. intros H. apply andb_true_iff in H as [Hc Hs].
  apply negb_true_iff in Hc. rewrite Hc. simpl. now rewrite IH.
Qed.

Lemma length_stripLastSegment (s : string) :
  String.length (stripLastSegment s) <= String.length s.
Proof.
  induction s as [|c s IH]; [apply Nat.le_refl|].
  simpl. destruct (isSlash c && negb (s =? "") && noSlash s); simpl; lia.
Qed.

Lemma orElse_nonempty (s d : string) : s <> "" -> orElse (Some s) d = s.
Proof.
  intros H. simpl. destruct (s =? "") eqn:E; [|reflexivity].
  apply String.eqb_eq in E. contradiction.
Qed.

(** X14. The route path is never empty and never longer than the route
    (one character for an empty route). A route that ends with [/] loses no
    segment, and neither does a route without any [/]: for these only the
    parameters are rewritten. *)
Theorem route_path_edges (r : string) :
  routePath r <> "" /\
  String.length (routePath r) <= Nat.max 1 (String.length r) /\
  (forall x, r = x ++ "/" ->
     routePath r = replaceParams false r /\ endsWith (routePath r) "/" = true) /\
  (r <> "" -> noSlash r = true -> routePath r = replaceParams false r).
Proof.
  split; [apply routePath_nonempty|].
  split; [|split].
  - unfold routePath.
    pose proof (length_stripLastSegment (replaceParams false r)) as H.
    rewrite length_replaceParams in H.
    destruct (stripLastSegment (replaceParams false r)) as [|c s] eqn:E.
    + apply Nat.le_max_l.
    + change (orElse (Some (String c s)) "/") with (String c s).
      etransitivity; [exact H|apply Nat.le_max_r].
  - intros x ->. unfold routePath.
    destruct (replaceParams_trailing_slash false x) as [x' Hx'].
    rewrite Hx', stripLastSegment_trailing_slash.
    rewrite orElse_nonempty by (destruct x'; discriminate).
    split; [reflexivity|apply endsWith_append].
  - intros Hne Hs. unfold routePath.
    rewrite stripLastSegment_noSlash by (now rewrite noSlash_replaceParams).
    apply orElse_nonempty. intros E.
    apply (f_equal String.length) in E. rewrite length_replaceParams in E.
    destruct r; [contradiction|discriminate].
Qed.

(** ** The outcomes of the [no-externals] hook *)

Section Outcomes.

Variable host : Host.
Variable nitro : Nitro.
Variable resolvers : Resolvers.

Local Abbreviation resolveId := (resolveId host nitro resolvers).
Local Abbreviation fallbackOptions := (fallbackOptions host nitro).

Lemma resolveId_builtin (i : string) (importer : option string) :
  (node (options nitro) && isBuiltin host i) = true ->
  resolveId i importer = ([], Return (Some {| id := i; external := true |})).
Proof.
  intros Hb. unfold RollupConfig.resolveId, resolveIdBody, bind, when, leave.
  now rewrite Hb.
Qed.

(** X15. The hook marks nothing external but a runtime builtin under Node
    support. Another module it returns is the non-empty answer of the
    fallback after the primary resolver failed; it leaves the module to the
    other plugins only when the primary resolver found it and it is not
    external or ends in [.wasm]. It asks the primary resolver at most once
    and the fallback only after the primary resolver failed. *)
Theorem strict_mode_externalizes_builtins_only (i : string) (importer : option string) :
  (forall r, snd (resolveId i importer) = Return (Some r) -> external r = true ->
     node (options nitro) = true /\ isBuiltin host i = true /\ id r = i /\
     fst (resolveId i importer) = []) /\
  (forall r, snd (resolveId i importer) = Return (Some r) -> external r = false ->
     this_resolve resolvers i importer = None /\
     resolveModulePath resolvers i (fallbackOptions importer) = Some (id r) /\
     id r <> "") /\
  (snd (resolveId i importer) = Return None ->
     exists r0, this_resolve resolvers i importer = Some r0 /\
                (external r0 = false \/ endsWith i ".wasm" = true)) /\
  (fst (resolveId i importer) = [] \/
   fst (resolveId i importer) = [CallResolve i importer] /\
     this_resolve resolvers i importer <> None \/
   fst (resolveId i importer) =
     [CallResolve i importer; CallResolveModulePath i (fallbackOptions importer)] /\
     this_resolve resolvers i importer = None).
Proof.
  destruct (node (options nitro) && isBuiltin host i) eqn:Hb.
  - rewrite (resolveId_builtin i importer Hb). simpl.
    apply andb_true_iff in Hb as [Hn Hi].
    repeat split; try discriminate; auto.
    + now injection H as <-.
    + injection H as <-. discriminate.
    + injection H as <-. discriminate.
    + injection H as <-. discriminate.
  - rewrite (resolveId_not_builtin host nitro resolvers i importer Hb).
    destruct (this_resolve resolvers i importer) as [r0|] eqn:Hp.
    + simpl. destruct (external r0 && negb (endsWith i ".wasm")) eqn:He.
      * repeat split; try discriminate.
        right. left. split; [reflexivity|discriminate].
      * repeat split; try discriminate.
        -- exists r0. split; [reflexivity|].
           apply andb_false_iff in He as [He|He]; [now left|].
           right. now apply negb_false_iff in He.
        -- right. left. split; [reflexivity|discriminate].
    + simpl.
      destruct (resolveModulePath resolvers i (fallbackOptions importer))
        as [m|] eqn:Hf.
      * destruct (m =? "") eqn:Em.
        -- repeat split; try discriminate. right. right. now split.
        -- apply String.eqb_neq in Em.
           repeat split; try discriminate.
           ++ injection H as <-. discriminate.
           ++ injection H as <-. discriminate.
           ++ injection H as <-. discriminate.
           ++ injection H as <-. discriminate.
           ++ now injection H as <-.
           ++ injection H as <-. exact Em.
           ++ right. right. now split.
      * repeat split; try discriminate. right. right. now split.
Qed.

End Outcomes.

End RollupConfigMore.

(* ================================================================== *)
(** * The values of the replace plugin *)
(* ================================================================== *)

Module ReplaceValuesSpec.
Import JS Types ReplaceValues MoreNotions.

Lemma distinctb_NoDup (l : list string) : distinctb l = true -> NoDup l.
Proof.
  induction l as [|x l IH]; [constructor|].
  simpl. intros H. apply andb_true_iff in H as [Hx Hl].
  constructor; [|auto].
  intros Hin. apply negb_true_iff in Hx.
  assert (Hex : existsb (String.eqb x) l = true).
  { apply existsb_exists. exists x. split; [exact Hin|apply String.eqb_refl]. }
  congruence.
Qed.

Lemma valueOf_app (key : string) (a b : list (string * option string)) :
  valueOf key (a ++ b) =
    match valueOf key b with
    | Some v => Some v
    | None => valueOf key a
    end.
Proof.
  unfold valueOf. rewrite rev_app_distr.
  generalize (rev b) as l. intros l.
  induction l as [|e l IH]; [reflexivity|].
  simpl. destruct (fst e =? key); [reflexivity|exact IH].
Qed.

Section Values.

Variable nitro : Nitro.
Variable more : ReplaceOptions.

Local Abbreviation values := (values nitro more).
Local Abbreviation ownValues := (ownValues nitro more).
Local Abbreviation buildEnvVars := (buildEnvVars nitro more).
Local Abbreviation staticFlags := (staticFlags nitro more).

(** X16. An entry of [nitro.options.replace] always wins over the value the
    configuration computes for the same key, and only such an entry can
    change one: the keys the configuration writes itself are all
    different. *)
Theorem user_replacements_win (key : string) :
  (forall v, valueOf key (replace more) = Some v -> valueOf key values = Some v) /\
  (valueOf key (replace more) = None -> valueOf key values = valueOf key ownValues) /\
  NoDup (map fst ownValues).
Proof.
  unfold ReplaceValues.values. rewrite valueOf_app.
  split; [now intros v ->|].
  split; [now intros ->|].
  apply distinctb_NoDup. reflexivity.
Qed.


End Values.

End ReplaceValuesSpec.
